(** * Layer timing proxies: a model of [pytorchures/timing.py] and
      [object_detection/timing.py]

    The two Python files define a [TimedLayer] wrapper around
    [torch.nn.Module] objects, a recursive [wrap_model_layers] that
    installs such wrappers in a model, and a [profile_function]
    decorator.  Python objects live in a store addressed by identity;
    the wrapping functions mutate that store in place, so the store is
    explicit here.  The torch framework is not part of the repository:
    of [torch.nn.Module] we model the registry of sub-modules
    ([_modules]), attribute lookup, [named_children], [__setattr__] and
    [__call__]; of the ambient process we model the wall clock, the
    gradient-recording flag, CUDA availability, the log and stdout. *)

From Stdlib Require Import ZArith Lia Bool.
From stdpp Require Import base list strings.

Set Warnings "-register-all".

Open Scope string_scope.
Open Scope list_scope.

(** ** Values, exceptions, component behaviour *)

Abbreviation addr := nat.

Inductive value :=
| VNone
| VBool (b : bool)
| VInt (z : Z)
| VStr (s : string)
| VRef (a : addr)
| VMethod (self : addr) (name : string).

Inductive exn :=
| AssertionError
| AttributeError (name : string)
| TypeError
| RecursionError
| RuntimeError (msg : string)
| UserError (payload : value).

(** The body of a component's [forward]: it may invoke a sub-module
    held under an attribute name ([self.<name>(arg)]), ask whether
    gradient recording is on ([torch.is_grad_enabled()]), return or
    raise.  These are the components the development covers: a
    [forward] that inspects the class of a sub-module, reads its
    attributes or changes the module tree is outside it. *)
Inductive prog :=
| Return (v : value)
| Raise (e : exn)
| CallChild (name : string) (arg : value) (k : value -> prog)
| IsGradEnabled (k : bool -> prog).

(** A plain [torch.nn.Module]: its class name, its [forward], its other
    attributes and its ordered registry of sub-modules. *)
Record module := Module {
  class_name : string;
  forward_body : value -> prog;
  attrs : list (string * value);
  _modules : list (string * addr)
}.

(** A line written by [logger.info] or [print]: plain text, the layer
    line ["{indent}Layer {name}: {ms} ms"] or the function line
    ["Function '{name}' executed in {ms} ms."]; the number stands for
    the formatted float. *)
Inductive line :=
| Text (s : string)
| LayerLine (indent name : string) (ms : Z)
| FunctionLine (name : string) (ms : Z).

Definition tab : string := String (Ascii.ascii_of_nat 9) EmptyString.

(** ** Association lists (ordered dictionaries) *)

Fixpoint assoc {V} (k : string) (l : list (string * V)) : option V :=
  match l with
  | [] => None
  | (k', v) :: l' => if String.eqb k k' then Some v else assoc k l'
  end.

(** [d[k] = v]: replace in place, or append a new key at the end. *)
Fixpoint assoc_set {V} (k : string) (v : V) (l : list (string * V)) : list (string * V) :=
  match l with
  | [] => [(k, v)]
  | (k', v') :: l' => if String.eqb k k' then (k', v) :: l' else (k', v') :: assoc_set k v l'
  end.

Fixpoint assoc_del {V} (k : string) (l : list (string * V)) : list (string * V) :=
  match l with
  | [] => []
  | (k', v') :: l' => if String.eqb k k' then l' else (k', v') :: assoc_del k l'
  end.

(** ** The store, the ambient state and the execution monad *)

Section Framework.
Context {T : Type}.

(** An object of the store is a plain module or a [TimedLayer] (whose
    fields [T] differ between the two variants). *)
Inductive obj :=
| Plain (m : module)
| Timed (t : T).

Record world := World {
  heap : list obj;
  clock : nat -> Z;          (* successive readings of time.time() *)
  reads : nat;               (* readings consumed so far *)
  grad_enabled : bool;       (* torch.is_grad_enabled() *)
  cuda_available : bool;     (* torch.cuda.is_available() *)
  cuda_syncs : nat;          (* completed torch.cuda.synchronize() calls *)
  log : list line;
  stdout : list line
}.

Inductive outcome (A : Type) :=
| Ok (a : A) (w : world)
| Err (e : exn) (w : world)
| OutOfFuel.
Arguments Ok {A} a w.
Arguments Err {A} e w.
Arguments OutOfFuel {A}.

Definition M (A : Type) := world -> outcome A.

Definition ret {A} (a : A) : M A := fun w => Ok a w.
Definition raise {A} (e : exn) : M A := fun w => Err e w.
Definition out_of_fuel {A} : M A := fun _ => OutOfFuel.
Definition bind {A B} (m : M A) (f : A -> M B) : M B :=
  fun w => match m w with
           | Ok a w' => f a w'
           | Err e w' => Err e w'
           | OutOfFuel => OutOfFuel
           end.

(** [try: m finally: c]. *)
Definition finally {A} (m : M A) (c : world -> world) : M A :=
  fun w => match m w with
           | Ok a w' => Ok a (c w')
           | Err e w' => Err e (c w')
           | OutOfFuel => OutOfFuel
           end.

Definition assert (b : bool) : M unit :=
  if b then ret tt else raise AssertionError.

Definition set_heap (h : list obj) (w : world) : world :=
  World h (clock w) (reads w) (grad_enabled w) (cuda_available w) (cuda_syncs w) (log w) (stdout w).
Definition set_grad_enabled (g : bool) (w : world) : world :=
  World (heap w) (clock w) (reads w) g (cuda_available w) (cuda_syncs w) (log w) (stdout w).

Definition get_heap : M (list obj) := fun w => Ok (heap w) w.
Definition put_heap (h : list obj) : M unit := fun w => Ok tt (set_heap h w).

(** The world after [time.time()], after [logger.info(l)] and after
    [print(l)]. *)
Definition tick (w : world) : world :=
  World (heap w) (clock w) (S (reads w)) (grad_enabled w) (cuda_available w)
        (cuda_syncs w) (log w) (stdout w).
Definition logged (l : line) (w : world) : world :=
  World (heap w) (clock w) (reads w) (grad_enabled w) (cuda_available w)
        (cuda_syncs w) (log w ++ [l]) (stdout w).
Definition printed (l : line) (w : world) : world :=
  World (heap w) (clock w) (reads w) (grad_enabled w) (cuda_available w)
        (cuda_syncs w) (log w) (stdout w ++ [l]).

(** [time.time()] *)
Definition time_time : M Z := fun w => Ok (clock w (reads w)) (tick w).

Definition is_grad_enabled : M bool := fun w => Ok (grad_enabled w) w.

Definition is_available : M bool := fun w => Ok (cuda_available w) w.

(** [torch.cuda.synchronize()]: waits for the device; it raises when
    there is no CUDA device to initialise. *)
Definition synchronize : M unit := fun w =>
  if cuda_available w
  then Ok tt (World (heap w) (clock w) (reads w) (grad_enabled w) (cuda_available w)
                    (S (cuda_syncs w)) (log w) (stdout w))
  else Err (RuntimeError "no CUDA device") w.

Definition logger_info (l : line) : M unit := fun w => Ok tt (logged l w).

Definition print (l : line) : M unit := fun w => Ok tt (printed l w).

(** Object creation: the new object gets the next identity. *)
Definition alloc (o : obj) : M addr := fun w =>
  Ok (length (heap w)) (set_heap (heap w ++ [o]) w).

Definition isinstance_Module (h : list obj) (v : value) : bool :=
  match v with
  | VRef a => match h !! a with Some _ => true | None => false end
  | _ => false
  end.

Definition isinstance_TimedLayer (h : list obj) (v : value) : bool :=
  match v with
  | VRef a => match h !! a with Some (Timed _) => true | _ => false end
  | _ => false
  end.

End Framework.

Arguments obj T : clear implicits.
Arguments world T : clear implicits.
Arguments outcome T A : clear implicits.
Arguments M T A : clear implicits.
Arguments Ok {T A} a w.
Arguments Err {T A} e w.
Arguments OutOfFuel {T A}.

Notation "x <- m ;; k" := (bind m (fun x => k))
  (at level 100, m at next level, right associativity).
Notation "m ;;; k" := (bind m (fun _ => k))
  (at level 100, right associativity).

(** A callable, as [profile_function] receives it.  A function object
    has a [__name__]; other callables (a [functools.partial] object, an
    instance of a class with [__call__]) have none, and reading the
    attribute raises [AttributeError]. *)
Record function (T : Type) := Function {
  __name__ : option string;
  __doc__ : option string;
  body : value -> M T value
}.
Arguments Function {T}.
Arguments __name__ {T}.
Arguments __doc__ {T}.
Arguments body {T}.

(** [f.__name__] *)
Definition get_name {T} (f : function T) : M T string :=
  match __name__ f with
  | Some name => ret name
  | None => raise (AttributeError "__name__")
  end.

(** Running the body of a plain module's [forward] on [self], given how
    attributes are read and how objects are called. *)
Section Run.
Context {T : Type}.
Variable getattr : addr -> string -> M T value.
Variable call : value -> value -> M T value.

Fixpoint run (self : addr) (p : prog) : M T value :=
  match p with
  | Return v => ret v
  | Raise e => raise e
  | CallChild name arg k =>
      child <- getattr self name ;;
      v <- call child arg ;;
      run self (k v)
  | IsGradEnabled k =>
      g <- is_grad_enabled ;;
      run self (k g)
  end.
End Run.

(** [named_children] yields each distinct sub-module once, in
    registration order: [memo] holds the identities already yielded. *)
Fixpoint distinct_children (memo : list addr) (l : list (string * addr)) : list (string * addr) :=
  match l with
  | [] => []
  | (name, c) :: l' =>
      if bool_decide (c ∈ memo) then distinct_children memo l'
      else (name, c) :: distinct_children (c :: memo) l'
  end.

(** Names every [torch.nn.Module] has from the base class: methods and
    bookkeeping attributes.  The list is representative; the values
    behind these names are not modelled ([VMethod] stands for them). *)
Definition Module_methods : list string :=
  ["__call__"; "__setattr__"; "__getattr__"; "__dir__"; "forward";
   "named_children"; "children"; "named_modules"; "modules"; "parameters";
   "state_dict"; "train"; "eval"; "to"; "training";
   "_modules"; "_parameters"; "_buffers"].

Definition in_names (name : string) (l : list string) : bool :=
  existsb (String.eqb name) l.

(** * The [pytorchures] variant *)

Module Pytorchures.

Record TimedLayer := {
  _module : addr;
  _module_name : string;
  _total_time_ms : Z;
  _indent : string
}.

Abbreviation obj := (obj TimedLayer).
Abbreviation world := (world TimedLayer).
Abbreviation M := (M TimedLayer).

(** The report built by [get_timings]: the dictionary with keys
    [module_name], [total_time] and [sub_modules]. *)
Inductive timings :=
| Timings (module_name : string) (total_time : Z) (sub_modules : list timings).

Definition TimedLayer_methods : list string :=
  ["__init__"; "forward"; "__len__"; "__iter__"; "__getattr__"; "get_timings"].

(** What ordinary lookup finds on an object itself: its instance
    dictionary and its class. *)
Definition object_getattribute (self : addr) (o : obj) (name : string) : option value :=
  match o with
  | Plain m =>
      match assoc name (attrs m) with
      | Some v => Some v
      | None => if in_names name Module_methods then Some (VMethod self name) else None
      end
  | Timed t =>
      if String.eqb name "_module_name" then Some (VStr (_module_name t))
      else if String.eqb name "_total_time_ms" then Some (VInt (_total_time_ms t))
      else if String.eqb name "_indent" then Some (VStr (_indent t))
      else if in_names name TimedLayer_methods || in_names name Module_methods
           then Some (VMethod self name)
      else None
  end.

(** The registry [_modules] of an object; a [TimedLayer] registers the
    wrapped module under ["_module"]. *)
Definition modules_of (o : obj) : list (string * addr) :=
  match o with
  | Plain m => _modules m
  | Timed t => [("_module", _module t)]
  end.

(** [torch.nn.Module.__getattr__] *)
Definition Module_getattr (o : obj) (name : string) : option value :=
  match assoc name (modules_of o) with
  | Some c => Some (VRef c)
  | None => None
  end.

(** [getattr(o, name)]: ordinary lookup, then the class's
    [__getattr__]; for a [TimedLayer] that is

      try: return super().__getattr__(attribute_name)
      except AttributeError: return getattr(self._module, attribute_name)

    The recursion through wrapped objects is bounded as Python's is. *)
Fixpoint getattr_rec (depth : nat) (h : list obj) (a : addr) (name : string) : value + exn :=
  match h !! a with
  | None => inr (RuntimeError "no such object")
  | Some o =>
      match object_getattribute a o name with
      | Some v => inl v
      | None =>
          match Module_getattr o name with
          | Some v => inl v
          | None =>
              match o with
              | Plain _ => inr (AttributeError name)
              | Timed t =>
                  match depth with
                  | O => inr RecursionError
                  | S d => getattr_rec d h (_module t) name
                  end
              end
          end
      end
  end.

Definition getattr_pure (h : list obj) (a : addr) (name : string) : value + exn :=
  getattr_rec (length h) h a name.

Definition getattr (a : addr) (name : string) : M value := fun w =>
  match getattr_pure (heap w) a name with
  | inl v => Ok v w
  | inr e => Err e w
  end.

Definition class_name_of (o : obj) : string :=
  match o with
  | Plain m => class_name m
  | Timed _ => "TimedLayer"
  end.

Definition deref (a : addr) : M obj := fun w =>
  match heap w !! a with
  | Some o => Ok o w
  | None => Err (RuntimeError "no such object") w
  end.

(** The fields of [self] inside a method of [TimedLayer]. *)
Definition fields (self : addr) : M TimedLayer :=
  o <- deref self ;;
  match o with
  | Timed t => ret t
  | Plain _ => raise TypeError
  end.

(** [setattr(model, name, value)] with a module as value
    ([torch.nn.Module.__setattr__]): the name leaves the instance
    dictionary and the registry entry is set. *)
Definition setattr (model : addr) (name : string) (v : addr) : M unit :=
  o <- deref model ;;
  match o with
  | Plain m =>
      h <- get_heap ;;
      put_heap (<[model := Plain (Module (class_name m) (forward_body m)
                                         (assoc_del name (attrs m))
                                         (assoc_set name v (_modules m)))]> h)
  | Timed t =>
      if String.eqb name "_module"
      then h <- get_heap ;;
           put_heap (<[model := Timed {| _module := v; _module_name := _module_name t;
                                         _total_time_ms := _total_time_ms t;
                                         _indent := _indent t |}]> h)
      else raise (RuntimeError "attribute outside the model of TimedLayer")
  end.

(** [TimedLayer.__init__(self, module, indent)], returning the new
    object. *)
Definition __init__ (module : value) (indent : string) : M addr :=
  h <- get_heap ;;
  assert (isinstance_Module h module) ;;;
  assert (negb (isinstance_TimedLayer h module)) ;;;
  match module with
  | VRef a =>
      o <- deref a ;;
      alloc (Timed {| _module := a;
                      _module_name := class_name_of o;
                      _total_time_ms := 0%Z;
                      _indent := indent |})
  | _ => raise TypeError
  end.

Definition set_total_time_ms (self : addr) (ms : Z) : M unit :=
  t <- fields self ;;
  h <- get_heap ;;
  put_heap (<[self := Timed {| _module := _module t; _module_name := _module_name t;
                               _total_time_ms := ms; _indent := _indent t |}]> h).

(** [TimedLayer.forward], applied to the arguments [args]; [call] is
    [torch.nn.Module.__call__]. *)
Definition forward (call : value -> value -> M value) (self : addr) (args : value) : M value :=
  fun w =>
    let prev := grad_enabled w in                        (* with torch.no_grad(): *)
    finally
      (start_time <- time_time ;;
       t <- fields self ;;
       x <- call (VRef (_module t)) args ;;
       avail <- is_available ;;
       (if avail then synchronize else ret tt) ;;;
       end_time <- time_time ;;
       set_total_time_ms self ((end_time - start_time) * 1000)%Z ;;;
       t' <- fields self ;;
       logger_info (LayerLine (_indent t') (_module_name t') (_total_time_ms t')) ;;;
       ret x)
      (set_grad_enabled prev)
      (set_grad_enabled false w).

(** Calling an object [f] on [args]: a module runs its class's [forward]. *)
Fixpoint call (fuel : nat) (f : value) (args : value) : M value :=
  match f with
  | VRef a =>
      match fuel with
      | O => out_of_fuel
      | S fuel' =>
          o <- deref a ;;
          match o with
          | Plain m => run getattr (call fuel') a (forward_body m args)
          | Timed _ => forward (call fuel') a args
          end
      end
  | VMethod _ _ => raise (RuntimeError "bound methods are not run in this model")
  | _ => raise TypeError
  end.

(** [named_children()] of the object at [a]. *)
Definition named_children (a : addr) : M (list (string * addr)) :=
  o <- deref a ;;
  ret (distinct_children [] (modules_of o)).

(** The loop of [get_timings] over the wrapped module's children. *)
Fixpoint sub_timings (get : addr -> M timings) (children : list (string * addr)) : M (list timings) :=
  match children with
  | [] => ret []
  | (_, child) :: rest =>
      h <- get_heap ;;
      if isinstance_TimedLayer h (VRef child)
      then r <- get child ;;
           rs <- sub_timings get rest ;;
           ret (r :: rs)
      else sub_timings get rest
  end.

(** [TimedLayer.get_timings(self)] *)
Fixpoint get_timings (fuel : nat) (self : addr) : M timings :=
  match fuel with
  | O => out_of_fuel
  | S fuel' =>
      t <- fields self ;;
      children <- named_children (_module t) ;;
      subs <- sub_timings (get_timings fuel') children ;;
      ret (Timings (_module_name t) (_total_time_ms t) subs)
  end.

(** The loop of [wrap_model_layers].  [named_children] is a generator
    over the live registry of [model]: the keys are those present when
    the loop starts (a dictionary may not change size while iterated),
    each value is read when its turn comes, and a module already
    yielded is skipped. *)
Fixpoint wrap_children (wrap : value -> string -> M addr) (model : addr) (indent : string)
    (keys : list string) (memo : list addr) : M unit :=
  match keys with
  | [] => ret tt
  | attribute_name :: keys' =>
      o <- deref model ;;
      match assoc attribute_name (modules_of o) with
      | None => raise (RuntimeError "dictionary changed size during iteration")
      | Some child =>
          if bool_decide (child ∈ memo)
          then wrap_children wrap model indent keys' memo
          else
            wrap (VRef child) (indent +:+ tab) ;;;
            wrapped_child <- __init__ (VRef child) indent ;;
            setattr model attribute_name wrapped_child ;;;
            wrap_children wrap model indent keys' (child :: memo)
      end
  end.

(** [wrap_model_layers(model, indent)] *)
Fixpoint wrap_model_layers (fuel : nat) (model : value) (indent : string) : M addr :=
  match fuel with
  | O => out_of_fuel
  | S fuel' =>
      h <- get_heap ;;
      assert (isinstance_Module h model) ;;;
      assert (negb (isinstance_TimedLayer h model)) ;;;
      match model with
      | VRef a =>
          o <- deref a ;;
          print (Text (indent +:+ class_name_of o)) ;;;
          wrap_children (wrap_model_layers fuel') a indent (map fst (modules_of o)) [] ;;;
          __init__ model indent
      | _ => raise TypeError
      end
  end.

(** [profile_function(f)]; [@wraps(f)] copies to the wrapper, a
    function named [wrap], the name of [f] when [f] has one, and the
    documentation of [f].  The line is formatted, and [f.__name__]
    read, after [f] has returned. *)
Definition profile_function (f : function TimedLayer) : function TimedLayer :=
  {| __name__ := Some (default "wrap" (__name__ f));
     __doc__ := __doc__ f;
     body := fun args =>
       ts <- time_time ;;
       result <- body f args ;;
       te <- time_time ;;
       let elapsed_ms := ((te - ts) * 1000)%Z in
       name <- get_name f ;;
       logger_info (FunctionLine name elapsed_ms) ;;;
       ret result |}.

End Pytorchures.

(** * The [object_detection] variant *)

Module ObjectDetection.

Record TimedLayer := {
  layer : value;
  _total_time : Z;
  indent : string
}.

Abbreviation obj := (obj TimedLayer).
Abbreviation world := (world TimedLayer).
Abbreviation M := (M TimedLayer).

Definition TimedLayer_methods : list string :=
  ["__init__"; "forward"; "postprocess"; "__len__"; "__iter__"; "__next__"; "get_time"].

(** The registry [_modules]: [self.layer = layer] registers a module
    under ["layer"]; any other value goes to the instance dictionary. *)
Definition modules_of (o : obj) : list (string * addr) :=
  match o with
  | Plain m => _modules m
  | Timed t => match layer t with VRef a => [("layer", a)] | _ => [] end
  end.

Definition instance_dict (t : TimedLayer) : list (string * value) :=
  [("_total_time", VInt (_total_time t)); ("indent", VStr (indent t))]
  ++ match layer t with VRef _ => [] | v => [("layer", v)] end.

Definition object_getattribute (self : addr) (o : obj) (name : string) : option value :=
  match o with
  | Plain m =>
      match assoc name (attrs m) with
      | Some v => Some v
      | None => if in_names name Module_methods then Some (VMethod self name) else None
      end
  | Timed t =>
      match assoc name (instance_dict t) with
      | Some v => Some v
      | None => if in_names name TimedLayer_methods || in_names name Module_methods
                then Some (VMethod self name) else None
      end
  end.

(** [getattr(o, name)]: this [TimedLayer] has no [__getattr__] of its
    own, so the fallback is [torch.nn.Module.__getattr__] for all. *)
Definition getattr (a : addr) (name : string) : M value := fun w =>
  match heap w !! a with
  | None => Err (RuntimeError "no such object") w
  | Some o =>
      match object_getattribute a o name with
      | Some v => Ok v w
      | None =>
          match assoc name (modules_of o) with
          | Some c => Ok (VRef c) w
          | None => Err (AttributeError name) w
          end
      end
  end.

Definition deref (a : addr) : M obj := fun w =>
  match heap w !! a with
  | Some o => Ok o w
  | None => Err (RuntimeError "no such object") w
  end.

Definition fields (self : addr) : M TimedLayer :=
  o <- deref self ;;
  match o with
  | Timed t => ret t
  | Plain _ => raise TypeError
  end.

(** [v.__class__.__name__] *)
Definition type_name (h : list obj) (v : value) : string :=
  match v with
  | VNone => "NoneType"
  | VBool _ => "bool"
  | VInt _ => "int"
  | VStr _ => "str"
  | VMethod _ _ => "method"
  | VRef a => match h !! a with
              | Some (Plain m) => class_name m
              | Some (Timed _) => "TimedLayer"
              | None => ""
              end
  end.

(** [setattr(model, name, value)] with a module as value. *)
Definition setattr (model : addr) (name : string) (v : addr) : M unit :=
  o <- deref model ;;
  match o with
  | Plain m =>
      h <- get_heap ;;
      put_heap (<[model := Plain (Module (class_name m) (forward_body m)
                                         (assoc_del name (attrs m))
                                         (assoc_set name v (_modules m)))]> h)
  | Timed t =>
      if String.eqb name "layer"
      then h <- get_heap ;;
           put_heap (<[model := Timed {| layer := VRef v; _total_time := _total_time t;
                                         indent := indent t |}]> h)
      else raise (RuntimeError "attribute outside the model of TimedLayer")
  end.

(** [TimedLayer.__init__(self, layer, indent)]: no check of [layer]. *)
Definition __init__ (layer : value) (indent : string) : M addr :=
  alloc (Timed {| layer := layer; _total_time := 0%Z; indent := indent |}).

Definition set_total_time (self : addr) (ms : Z) : M unit :=
  t <- fields self ;;
  h <- get_heap ;;
  put_heap (<[self := Timed {| layer := layer t; _total_time := ms; indent := indent t |}]> h).

(** [TimedLayer.forward]: the device is synchronised unconditionally. *)
Definition forward (call : value -> value -> M value) (self : addr) (args : value) : M value :=
  start_time <- time_time ;;
  t <- fields self ;;
  x <- call (layer t) args ;;
  synchronize ;;;
  end_time <- time_time ;;
  set_total_time self ((end_time - start_time) * 1000)%Z ;;;
  t' <- fields self ;;
  h <- get_heap ;;
  print (LayerLine (indent t') (type_name h (layer t')) (_total_time t')) ;;;
  ret x.

Fixpoint call (fuel : nat) (f : value) (args : value) : M value :=
  match f with
  | VRef a =>
      match fuel with
      | O => out_of_fuel
      | S fuel' =>
          o <- deref a ;;
          match o with
          | Plain m => run getattr (call fuel') a (forward_body m args)
          | Timed _ => forward (call fuel') a args
          end
      end
  | VMethod _ _ => raise (RuntimeError "bound methods are not run in this model")
  | _ => raise TypeError
  end.

(** [TimedLayer.get_time(self)] *)
Definition get_time (self : addr) : M Z :=
  t <- fields self ;;
  ret (_total_time t).

(** [dir(model)]: the names of the class, of the instance dictionary
    and of the registry, without those that start with a digit,
    sorted. *)
Definition starts_with_digit (s : string) : bool :=
  match s with
  | String c _ => let n := Ascii.nat_of_ascii c in Nat.leb 48 n && Nat.leb n 57
  | EmptyString => false
  end.

Fixpoint insert_sorted (s : string) (l : list string) : list string :=
  match l with
  | [] => [s]
  | x :: l' => if String.leb s x then s :: l else x :: insert_sorted s l'
  end.

Definition sorted (l : list string) : list string := fold_right insert_sorted [] l.

Definition dir (o : obj) : list string :=
  let keys :=
    match o with
    | Plain m => Module_methods ++ map fst (attrs m) ++ map fst (_modules m)
    | Timed t => TimedLayer_methods ++ Module_methods ++ map fst (instance_dict t)
                 ++ map fst (modules_of o)
    end in
  sorted (List.filter (fun key => negb (starts_with_digit key)) keys).

(** The loop of [wrap_model_layers] over [dir(model)]. *)
Fixpoint wrap_attributes (wrap : value -> string -> M unit) (model : addr) (indent : string)
    (attributes : list string) : M unit :=
  match attributes with
  | [] => ret tt
  | a :: attributes' =>
      attr <- getattr model a ;;
      h <- get_heap ;;
      (if isinstance_Module h attr
       then match attr with
            | VRef c =>
                timed <- __init__ attr indent ;;
                setattr model a timed ;;;
                wrap attr (indent +:+ tab)
            | _ => ret tt
            end
       else ret tt) ;;;
      wrap_attributes wrap model indent attributes'
  end.

(** [wrap_model_layers(model, indent)]: returns nothing.  A value that
    is not a module has no module among its attributes. *)
Fixpoint wrap_model_layers (fuel : nat) (model : value) (indent : string) : M unit :=
  match fuel with
  | O => out_of_fuel
  | S fuel' =>
      match model with
      | VRef a =>
          o <- deref a ;;
          wrap_attributes (wrap_model_layers fuel') a indent (dir o)
      | _ => ret tt
      end
  end.

(** [profile_function(f)]: as in the other variant, but the line is
    printed. *)
Definition profile_function (f : function TimedLayer) : function TimedLayer :=
  {| __name__ := Some (default "wrap" (__name__ f));
     __doc__ := __doc__ f;
     body := fun args =>
       ts <- time_time ;;
       result <- body f args ;;
       te <- time_time ;;
       let elapsed_ms := ((te - ts) * 1000)%Z in
       name <- get_name f ;;
       print (FunctionLine name elapsed_ms) ;;;
       ret result |}.

End ObjectDetection.

(** * Component trees

    A model is a tree of plain modules in the store.  A [tree] names
    the addresses; [is_tree] checks the store against it. *)

Import Pytorchures.

Inductive tree := Node (a : addr) (kids : list (string * tree)).

Definition root (t : tree) : addr := match t with Node a _ => a end.

Fixpoint height (t : tree) : nat :=
  match t with
  | Node _ kids => fold_right (fun nk acc => Nat.max (S (height (snd nk))) acc) O kids
  end.

Fixpoint addrs (t : tree) : list addr :=
  match t with
  | Node a kids => a :: flat_map (fun nk => addrs (snd nk)) kids
  end.

(** The registry entry of a child. *)
Definition entry (nk : string * tree) : string * addr := (fst nk, root (snd nk)).

Definition is_ref (v : value) : bool :=
  match v with VRef _ => true | _ => false end.

(** The invariants [torch.nn.Module] keeps on one object: a registered
    name is unique, is not also an ordinary attribute, and modules are
    held in the registry only. *)
Definition registry_ok (m : module) : bool :=
  forallb (fun n => negb (in_names n (map fst (attrs m))) && negb (in_names n Module_methods))
          (map fst (_modules m))
  && forallb (fun nv => negb (is_ref (snd nv))) (attrs m)
  && bool_decide (NoDup (map fst (_modules m))).

(** The store holds, at the addresses of [t], plain modules whose
    registries are the children of [t], in order. *)
Fixpoint is_tree_at (h : list obj) (t : tree) : bool :=
  match t with
  | Node a kids =>
      match h !! a with
      | Some (Plain m) =>
          bool_decide (_modules m = map entry kids)
          && registry_ok m
          && forallb (fun nk => is_tree_at h (snd nk)) kids
      | _ => false
      end
  end.

(** No module is shared: every address occurs once. *)
Definition is_tree (h : list obj) (t : tree) : bool :=
  is_tree_at h t && bool_decide (NoDup (addrs t)).

(** The result of a call, as a value or an exception, and the world it
    leaves. *)
Definition result {A} (o : outcome TimedLayer A) : option (A + exn) :=
  match o with
  | Ok a _ => Some (inl a)
  | Err e _ => Some (inr e)
  | OutOfFuel => None
  end.

Definition final {A} (o : outcome TimedLayer A) : option world :=
  match o with
  | Ok _ w => Some w
  | Err _ w => Some w
  | OutOfFuel => None
  end.

Definition lift (r : value + exn) (w : world) : outcome TimedLayer value :=
  match r with
  | inl v => Ok v w
  | inr e => Err e w
  end.

(** ** Wrapped trees *)

(** Every slot below a proxy holds a proxy (the coverage property). *)
Inductive proxied (h : list obj) : addr -> Prop :=
| proxied_intro p t m :
    h !! p = Some (Timed t) ->
    h !! _module t = Some (Plain m) ->
    Forall (fun nc => proxied h (snd nc)) (_modules m) ->
    proxied h p.

(** The store holds the tree [t] covered from [p]: [p] is a
    [TimedLayer] around the root of [t], the root is still a plain
    module, and its registry holds, under the names of the children of
    [t] and in their order, addresses from which the children of [t]
    are covered in turn. *)
Inductive covers (h : list obj) : tree -> addr -> Prop :=
| covers_node a kids p tl m :
    h !! p = Some (Timed tl) ->
    _module tl = a ->
    h !! a = Some (Plain m) ->
    Forall2 (fun nk nc => fst nc = fst nk /\ covers h (snd nk) (snd nc)) kids (_modules m) ->
    covers h (Node a kids) p.

(** The same, with the order of creation: the proxy in a slot is older
    (has a smaller address) than the proxy of the module that holds the
    slot. *)
Inductive bottom_up (h : list obj) : addr -> Prop :=
| bottom_up_intro p t m :
    h !! p = Some (Timed t) ->
    h !! _module t = Some (Plain m) ->
    Forall (fun nc => bottom_up h (snd nc) /\ snd nc < p) (_modules m) ->
    bottom_up h p.

(** The store [h] holds the tree [t] of [h0] wrapped: [p] is a
    [TimedLayer] with indent [ip] around the root, whose registry now
    holds, under the same names, [TimedLayer]s with indent [ik] around
    the children, which are wrapped in turn.  Every proxy was created
    at an address from [lo] on, the children's before the parent's, and
    its recorded time satisfies [Q]. *)
Inductive wrapped (Q : Z -> Prop) (h0 h : list obj) (lo : nat) :
    tree -> addr -> string -> string -> Prop :=
| wrapped_node a kids m ps p ip ik tm :
    h0 !! a = Some (Plain m) ->
    h !! a = Some (Plain (Module (class_name m) (forward_body m) (attrs m)
                                 (combine (map fst kids) ps))) ->
    h !! p = Some (Timed {| _module := a; _module_name := class_name m;
                            _total_time_ms := tm; _indent := ip |}) ->
    Q tm ->
    lo <= p ->
    Forall2 (fun nk c => wrapped Q h0 h lo (snd nk) c ik (ik +:+ tab) /\ c < p) kids ps ->
    wrapped Q h0 h lo (Node a kids) p ip ik.

(** What [wrap_model_layers] leaves unchanged outside the store. *)
Definition same_ambient (w w' : world) : Prop :=
  clock w' = clock w /\ reads w' = reads w /\ grad_enabled w' = grad_enabled w /\
  cuda_available w' = cuda_available w /\ cuda_syncs w' = cuda_syncs w /\ log w' = log w.

(** What [wrap_model_layers] on [t] achieves from [w] to [w']. *)
Definition wrap_post (w w' : world) (t : tree) (p : addr) (indent : string) : Prop :=
  wrapped (eq 0%Z) (heap w) (heap w') (length (heap w)) t p indent indent /\
  (forall x, x < length (heap w) -> x ∉ addrs t -> heap w' !! x = heap w !! x) /\
  length (heap w) <= length (heap w') /\
  same_ambient w w'.

(** ** The meaning of a component tree

    What invoking the root of a tree of plain modules computes, as a
    function of the argument and of the gradient mode. *)

(** The exception raised by calling a value that is not a module. *)
Definition call_error (v : value) : exn :=
  match v with
  | VMethod _ _ => RuntimeError "bound methods are not run in this model"
  | _ => TypeError
  end.

Fixpoint interp (own : string -> option value) (kid_fns : list (string * (value -> value + exn)))
    (g : bool) (p : prog) : value + exn :=
  match p with
  | Return v => inl v
  | Raise e => inr e
  | CallChild name arg k =>
      match own name with
      | Some v => inr (call_error v)
      | None =>
          match assoc name kid_fns with
          | Some f => match f arg with
                      | inl v => interp own kid_fns g (k v)
                      | inr e => inr e
                      end
          | None => inr (AttributeError name)
          end
      end
  | IsGradEnabled k => interp own kid_fns g (k g)
  end.

Fixpoint denote (h0 : list obj) (g : bool) (t : tree) : value -> value + exn :=
  match t with
  | Node a kids =>
      let kid_fns := map (fun nk => (fst nk, denote h0 g (snd nk))) kids in
      fun arg =>
        match h0 !! a with
        | Some (Plain m) =>
            interp (object_getattribute a (Plain m)) kid_fns g (forward_body m arg)
        | _ => inr (RuntimeError "no such object")
        end
  end.

(** ** The steps of [TimedLayer.forward] *)

(** The world in which [TimedLayer.forward] runs the wrapped module:
    the start time has been read and gradient recording is off. *)
Definition enter (w : world) : world :=
  World (heap w) (clock w) (S (reads w)) false (cuda_available w) (cuda_syncs w)
        (log w) (stdout w).

(** What [TimedLayer.forward] does once the wrapped module has returned
    [x]; [start_time] and [prev] were taken on entry. *)
Definition finish (self : addr) (start_time : Z) (prev : bool) (x : value) : M value :=
  finally
    (avail <- is_available ;;
     (if avail then synchronize else ret tt) ;;;
     end_time <- time_time ;;
     set_total_time_ms self ((end_time - start_time) * 1000)%Z ;;;
     t' <- fields self ;;
     logger_info (LayerLine (_indent t') (_module_name t') (_total_time_ms t')) ;;;
     ret x)
    (set_grad_enabled prev).

Definition with_time (t : TimedLayer) (ms : Z) : TimedLayer :=
  {| _module := _module t; _module_name := _module_name t;
     _total_time_ms := ms; _indent := _indent t |}.

(** The world [finish] leaves. *)
Definition finished (self : addr) (t : TimedLayer) (start_time : Z) (prev : bool) (w : world) : world :=
  let ms := ((clock w (reads w) - start_time) * 1000)%Z in
  World (<[self := Timed (with_time t ms)]> (heap w)) (clock w) (S (reads w)) prev
        (cuda_available w) (if cuda_available w then S (cuda_syncs w) else cuda_syncs w)
        (log w ++ [LayerLine (_indent t) (_module_name t) ms]) (stdout w).

(** From [h] to [h'] only recorded times changed, each to a value
    satisfying [Q]. *)
Definition evolves (Q : Z -> Prop) (h h' : list obj) : Prop :=
  length h' = length h /\
  forall x o, h !! x = Some o ->
    match o with
    | Plain m => h' !! x = Some (Plain m)
    | Timed t => exists ms, h' !! x = Some (Timed (with_time t ms)) /\
                            (ms = _total_time_ms t \/ Q ms)
    end.

(** Every duration measured from now on satisfies [Q]. *)
Definition clock_ok (Q : Z -> Prop) (w : world) : Prop :=
  forall r r', reads w <= r -> r < r' -> Q ((clock w r' - clock w r) * 1000)%Z.

(** What an invocation changes from [w] to [w']. *)
Definition call_post (Q : Z -> Prop) (w w' : world) : Prop :=
  evolves Q (heap w) (heap w') /\ grad_enabled w' = grad_enabled w /\
  clock w' = clock w /\ reads w <= reads w' /\ cuda_available w' = cuda_available w.

(** ** Attribute lookup on a proxy *)

(** What the proxy itself defines: its instance dictionary and class,
    and its registry entry ["_module"]. *)
Definition proxy_defines (p : addr) (t : TimedLayer) (name : string) : option value :=
  match object_getattribute p (Timed t) name with
  | Some v => Some v
  | None => Module_getattr (Timed t) name
  end.

(** What the wrapped (plain) module defines. *)
Definition module_defines (a : addr) (m : module) (name : string) : option value :=
  match object_getattribute a (Plain m) name with
  | Some v => Some v
  | None => Module_getattr (Plain m) name
  end.

(** ** The shape of a report *)

Inductive shape := Shape (name : string) (subs : list shape).

Fixpoint shape_of (r : timings) : shape :=
  match r with
  | Timings name _ subs => Shape name (map shape_of subs)
  end.

(** The shape of a component tree: class names, children in
    registration order. *)
Fixpoint component_shape (h : list obj) (t : tree) : shape :=
  match t with
  | Node a kids =>
      Shape (match h !! a with Some o => class_name_of o | None => "" end)
            (map (fun nk => component_shape h (snd nk)) kids)
  end.

Fixpoint durations_nonneg (r : timings) : bool :=
  match r with
  | Timings _ ms subs => (0 <=? ms)%Z && forallb durations_nonneg subs
  end.

(** Every duration in a report satisfies [Q]. *)
Fixpoint all_times (Q : Z -> Prop) (r : timings) : Prop :=
  match r with
  | Timings _ ms subs => Q ms /\ fold_right (fun s acc => all_times Q s /\ acc) True subs
  end.

(** ** Concrete models *)

(** A module without children that maps a number. *)
Definition leaf (cls : string) (f : Z -> Z) : obj :=
  Plain (Module cls (fun v => match v with
                              | VInt z => Return (VInt (f z))
                              | _ => Raise TypeError
                              end) [] []).

(** An initial world: no CUDA device, nothing logged or printed. *)
Definition ambient (h : list obj) (clk : nat -> Z) (g : bool) : world :=
  World h clk 0 g false 0 [] [].

(** [Net(conv = Conv, body = Seq(act = ReLU))] *)
Definition demo_heap : list obj :=
  [ Plain (Module "Net" (fun v => CallChild "conv" v (fun x => CallChild "body" x Return))
                  [] [("conv", 1); ("body", 2)]);
    leaf "Conv" (fun z => z + 1)%Z;
    Plain (Module "Seq" (fun v => CallChild "act" v Return) [] [("act", 3)]);
    leaf "ReLU" (fun z => z * 2)%Z ].

Definition demo_tree : tree :=
  Node 0 [("conv", Node 1 []); ("body", Node 2 [("act", Node 3 [])])].

Definition demo_world : world := ambient demo_heap (fun n => Z.of_nat n) true.

(** [Net(fc = Linear)] *)
Definition net_world : world :=
  ambient [Plain (Module "Net" (fun v => CallChild "fc" v Return) [] [("fc", 1)]);
           leaf "Linear" (fun z => z * 3)%Z]
          (fun n => Z.of_nat n) true.

(** A component that reports whether gradient recording is on, alone
    and wrapped. *)
Definition probe : obj :=
  Plain (Module "Probe" (fun _ => IsGradEnabled (fun g => Return (VBool g))) [] []).

Definition probe_world : world := ambient [probe] (fun n => Z.of_nat n) true.

Definition probe_wrapped : world :=
  ambient [probe;
           Timed {| _module := 0; _module_name := "Probe"; _total_time_ms := 0%Z;
                    _indent := tab |}]
          (fun n => Z.of_nat n) true.

(** A layer that has already been wrapped. *)
Definition wrapped_once : world :=
  ambient [leaf "Conv" (fun z => z + 1)%Z;
           Timed {| _module := 0; _module_name := "Conv"; _total_time_ms := 0%Z;
                    _indent := tab |}]
          (fun n => Z.of_nat n) true.

(** A component and a function that raise. *)
Definition failing : obj :=
  Plain (Module "Failing" (fun _ => Raise (UserError (VStr "boom"))) [] []).

Definition failing_world : world :=
  ambient [failing;
           Timed {| _module := 0; _module_name := "Failing"; _total_time_ms := 0%Z;
                    _indent := tab |}]
          (fun n => Z.of_nat n) true.

Definition failing_function : function TimedLayer :=
  {| __name__ := Some "f"; __doc__ := None;
     body := fun _ => raise (UserError (VStr "boom")) |}.

(** [f(x) = x * 2], the function of the specification's example. *)
Definition double : function TimedLayer :=
  {| __name__ := Some "double"; __doc__ := Some "Twice the argument.";
     body := fun x => match x with
                      | VInt z => ret (VInt (z * 2))
                      | _ => raise TypeError
                      end |}.

Definition double_od : function ObjectDetection.TimedLayer :=
  {| __name__ := Some "double"; __doc__ := Some "Twice the argument.";
     body := fun x => match x with
                      | VInt z => ret (VInt (z * 2))
                      | _ => raise TypeError
                      end |}.

(** An instance of a class whose [__call__] doubles the argument: a
    callable without [__name__]. *)
Definition doubler : function TimedLayer :=
  {| __name__ := None; __doc__ := None; body := body double |}.

Definition doubler_od : function ObjectDetection.TimedLayer :=
  {| __name__ := None; __doc__ := None; body := body double_od |}.

(** A module with an attribute of its own, and a proxy around it. *)
Definition conv_with_stride : module :=
  Module "Conv" (fun v => Return v) [("stride", VInt 2)] [].

Definition conv_proxy : TimedLayer :=
  {| _module := 0; _module_name := "Conv"; _total_time_ms := 0%Z; _indent := tab |}.

(** The wall clock set back by one unit at every reading. *)
Definition backwards_world : world :=
  ambient [leaf "Conv" (fun z => z + 1)%Z] (fun n => 10 - Z.of_nat n)%Z true.

(** Inputs for the [object_detection] variant. *)
Module OD.
Import ObjectDetection.

Definition leaf (cls : string) (f : Z -> Z) : obj :=
  Plain (Module cls (fun v => match v with
                              | VInt z => Return (VInt (f z))
                              | _ => Raise TypeError
                              end) [] []).

(** An initial world with a CUDA device. *)
Definition ambient (h : list obj) : world :=
  World h (fun n => Z.of_nat n) 0 true true 0 [] [].

(** A layer that has already been wrapped. *)
Definition wrapped_once : world :=
  ambient [leaf "Conv" (fun z => z + 1)%Z;
           Timed {| layer := VRef 0; _total_time := 0%Z; indent := tab |}].

(** [Net(fc = Linear)] *)
Definition net : world :=
  ambient [Plain (Module "Net" (fun v => CallChild "fc" v Return) [] [("fc", 1)]);
           leaf "Linear" (fun z => z * 3)%Z].

(** [Net(body = Seq(act = ReLU))] *)
Definition deep : world :=
  ambient [Plain (Module "Net" (fun v => CallChild "body" v Return) [] [("body", 1)]);
           Plain (Module "Seq" (fun v => CallChild "act" v Return) [] [("act", 2)]);
           leaf "ReLU" (fun z => z * 2)%Z].

(** An object without its [forward]. *)
Definition summary (o : obj) : string * list (string * addr) + TimedLayer :=
  match o with
  | Plain m => inl (class_name m, _modules m)
  | Timed t => inr t
  end.

(** [o] is a [TimedLayer] around the object at [a]. *)
Definition wraps (a : addr) (o : obj) : bool :=
  match o with
  | Timed t => match layer t with VRef b => Nat.eqb a b | _ => false end
  | Plain _ => false
  end.

End OD.

(** ** Further models and measures *)

(** A wrapped layer on a machine without a CUDA device. *)
Definition od_no_cuda : ObjectDetection.world :=
  World [OD.leaf "Conv" (fun z => z + 1)%Z;
         Timed {| ObjectDetection.layer := VRef 0; ObjectDetection._total_time := 0%Z;
                  ObjectDetection.indent := tab |}]
        (fun n => Z.of_nat n) 0 true false 0 [] [].

(** [Sequential(Conv, ReLU)]: the children are named [0] and [1]. *)
Definition od_sequential : ObjectDetection.world :=
  OD.ambient [Plain (Module "Sequential"
                       (fun v => CallChild "0" v (fun x => CallChild "1" x Return))
                       [] [("0", 1); ("1", 2)]);
              OD.leaf "Conv" (fun z => z + 1)%Z;
              OD.leaf "ReLU" (fun z => z * 2)%Z].

(** The number of modules of a tree. *)
Fixpoint size (t : tree) : nat :=
  match t with
  | Node _ kids => S (fold_right (fun nk acc => size (snd nk) + acc) O kids)
  end.

(** The class names of a tree in pre-order, one more tab per level. *)
Fixpoint listing (h : list obj) (t : tree) (indent : string) : list line :=
  match t with
  | Node a kids =>
      Text (indent +:+ match h !! a with Some o => class_name_of o | None => "" end)
      :: flat_map (fun nk => listing h (snd nk) (indent +:+ tab)) kids
  end.

Definition wrap_out (w w' : world) (t : tree) (indent : string) : Prop :=
  stdout w' = stdout w ++ listing (heap w) t indent /\
  length (heap w') = length (heap w) + 2 * size t - 1.

(** [Tied(enc = Linear, dec = the same Linear)] *)
Definition shared_forward (v : value) : prog :=
  CallChild "enc" v (fun x => CallChild "dec" x Return).

Definition shared_leaf : module :=
  Module "Linear" (fun v => Return v) [] [].

Definition shared_world : world :=
  ambient [Plain (Module "Tied" shared_forward [] [("enc", 1); ("dec", 1)]);
           Plain shared_leaf]
          (fun n => Z.of_nat n) true.

(** [Net(enc = Linear, dec = TimedLayer(Linear))]: the second child was
    wrapped by hand before. *)
Definition mixed_world : world :=
  ambient [Plain (Module "Net" shared_forward [] [("enc", 1); ("dec", 2)]);
           Plain shared_leaf;
           Timed {| _module := 3; _module_name := "Linear"; _total_time_ms := 0%Z;
                    _indent := "" |};
           Plain shared_leaf]
          (fun n => Z.of_nat n) true.

(** * Proofs *)

Lemma tree_ind' (P : tree -> Prop) :
  (forall a kids, Forall (fun nk => P (snd nk)) kids -> P (Node a kids)) ->
  forall t, P t.
Proof.
  intros H. fix IH 1. intros [a kids]. apply H.
  induction kids as [|[n k] kids IHk]; constructor; [apply IH | exact IHk].
Qed.

(** ** Association lists *)

Lemma assoc_app_r {V} (k : string) (l1 l2 : list (string * V)) :
  k ∉ map fst l1 -> assoc k (l1 ++ l2) = assoc k l2.
Proof.
  induction l1 as [|[k' v] l1 IH]; simpl; intros Hn; [done|].
  destruct (String.eqb_spec k k') as [->|Hne].
  - exfalso. apply Hn. left.
  - apply IH. intros Hin. apply Hn. right. exact Hin.
Qed.

Lemma assoc_set_app_r {V} (k : string) (v v' : V) (l1 l2 : list (string * V)) :
  k ∉ map fst l1 ->
  assoc_set k v (l1 ++ (k, v') :: l2) = l1 ++ (k, v) :: l2.
Proof.
  induction l1 as [|[k' u] l1 IH]; simpl; intros Hn.
  - by rewrite String.eqb_refl.
  - destruct (String.eqb_spec k k') as [->|Hne].
    + exfalso. apply Hn. left.
    + f_equal. apply IH. intros Hin. apply Hn. right. exact Hin.
Qed.

Lemma assoc_del_notin {V} (k : string) (l : list (string * V)) :
  in_names k (map fst l) = false -> assoc_del k l = l.
Proof.
  induction l as [|[k' u] l IH]; simpl; [done|].
  intros H. apply orb_false_iff in H as [H1 H2].
  rewrite H1. f_equal. by apply IH.
Qed.

Lemma assoc_Some_in {V} (k : string) (v : V) (l : list (string * V)) :
  assoc k l = Some v -> (k, v) ∈ l.
Proof.
  induction l as [|[k' u] l IH]; simpl; [done|].
  destruct (String.eqb_spec k k') as [->|Hne].
  - intros [= ->]. left.
  - intros H. right. by apply IH.
Qed.

(** ** Trees in the store *)

Lemma is_tree_at_inv h a kids :
  is_tree_at h (Node a kids) = true ->
  exists m, h !! a = Some (Plain m) /\ _modules m = map entry kids /\
            registry_ok m = true /\
            Forall (fun nk => is_tree_at h (snd nk) = true) kids.
Proof.
  simpl. destruct (h !! a) as [[m|]|]; try discriminate.
  intros H. apply andb_true_iff in H as [H H3]. apply andb_true_iff in H as [H1 H2].
  exists m. split; [done|]. split; [by apply bool_decide_eq_true in H1|].
  split; [done|]. apply Forall_forall. intros nk Hin.
  rewrite forallb_forall in H3. apply H3. by apply list_elem_of_In.
Qed.

Lemma is_tree_at_ext h h' t :
  (forall x, x ∈ addrs t -> h' !! x = h !! x) ->
  is_tree_at h' t = is_tree_at h t.
Proof.
  revert t. induction t as [a kids IH] using tree_ind'. intros Hagree.
  simpl. rewrite (Hagree a) by (simpl; left).
  destruct (h !! a) as [[m|]|]; try done. f_equal.
  assert (Hk : forall x, x ∈ flat_map (fun nk => addrs (snd nk)) kids -> h' !! x = h !! x).
  { intros x Hx. apply Hagree. simpl. by right. }
  clear Hagree. induction kids as [|nk kids IHk]; simpl; [done|].
  inversion IH as [|? ? Hhd Htl]; subst. f_equal.
  - apply Hhd. intros x Hx. apply Hk. simpl. apply elem_of_app. by left.
  - apply IHk; [done|]. intros x Hx. apply Hk. simpl. apply elem_of_app. by right.
Qed.

Lemma is_tree_at_bound h t :
  is_tree_at h t = true -> forall x, x ∈ addrs t -> x < length h.
Proof.
  revert t. induction t as [a kids IH] using tree_ind'. intros Ht x Hx.
  apply is_tree_at_inv in Ht as (m & Ha & _ & _ & Hkids).
  simpl in Hx. apply elem_of_cons in Hx as [->|Hx].
  - by apply lookup_lt_Some in Ha.
  - apply list_elem_of_In, in_flat_map in Hx as (nk & Hin & Hx).
    apply list_elem_of_In in Hin, Hx.
    rewrite Forall_forall in IH, Hkids. by apply (IH nk Hin (Hkids nk Hin)).
Qed.

Lemma wrapped_proxy_lt Q h0 h lo t p ip ik :
  wrapped Q h0 h lo t p ip ik -> lo <= p < length h.
Proof.
  intros H. inversion H; subst. split; [done|]. by eapply lookup_lt_Some.
Qed.

(** [wrapped] depends on the store only at the tree and at the proxies. *)
Lemma wrapped_mono Q Q' h0 h0' h h' lo lo' t :
  forall p ip ik,
  wrapped Q h0 h lo t p ip ik ->
  (forall z, Q z -> Q' z) ->
  (forall x, x ∈ addrs t -> h0' !! x = h0 !! x) ->
  lo' <= lo ->
  (forall x, x ∈ addrs t \/ lo <= x < length h -> h' !! x = h !! x) ->
  wrapped Q' h0' h' lo' t p ip ik.
Proof.
  induction t as [a kids IH] using tree_ind'.
  intros p ip ik Hw HQ H0 Hlo Hfr. inversion Hw as [? ? m ps ? ? ? tm Ha0 Ha Hp Htm Hlop Hkids]; subst.
  apply (wrapped_node Q' h0' h' lo' a kids m ps p ip ik tm).
  - rewrite H0; [done|]. simpl. left.
  - rewrite Hfr; [done|]. left. simpl. left.
  - rewrite Hfr; [done|]. right. split; [done|]. by eapply lookup_lt_Some.
  - by apply HQ.
  - lia.
  - assert (Hk0 : forall x, x ∈ flat_map (fun nk => addrs (snd nk)) kids -> h0' !! x = h0 !! x).
    { intros x Hx. apply H0. simpl. by right. }
    assert (Hkf : forall x, x ∈ flat_map (fun nk => addrs (snd nk)) kids \/ lo <= x < length h ->
                            h' !! x = h !! x).
    { intros x [Hx|Hx]; apply Hfr; [left; simpl; by right | by right]. }
    clear Hw Ha0 Ha Hp H0 Hfr.
    induction Hkids as [|nk c kids ps [Hhd Hlt] Htl IHk]; constructor.
    + inversion IH; subst. split; [|done]. eapply H1; eauto.
      * intros x Hx. apply Hk0. simpl. apply elem_of_app. by left.
      * intros x [Hx|Hx]; apply Hkf; [left|by right]. simpl. apply elem_of_app. by left.
    + inversion IH; subst. apply IHk; [done| |].
      * intros x Hx. apply Hk0. simpl. apply elem_of_app. by right.
      * intros x [Hx|Hx]; apply Hkf; [left|by right]. simpl. apply elem_of_app. by right.
Qed.

(** ** The primitives of the store *)

Lemma init_ok (w : world) a m indent :
  heap w !! a = Some (Plain m) ->
  __init__ (VRef a) indent w =
  Ok (length (heap w))
     (set_heap (heap w ++ [Timed {| _module := a; _module_name := class_name m;
                                    _total_time_ms := 0%Z; _indent := indent |}]) w).
Proof.
  intros H. unfold __init__, bind, get_heap, assert, deref, alloc. simpl.
  rewrite H. simpl. rewrite H. reflexivity.
Qed.

Lemma setattr_ok (w : world) model m name v :
  heap w !! model = Some (Plain m) ->
  setattr model name v w =
  Ok tt (set_heap (<[model := Plain (Module (class_name m) (forward_body m)
                                            (assoc_del name (attrs m))
                                            (assoc_set name v (_modules m)))]> (heap w)) w).
Proof.
  intros H. unfold setattr, bind, deref. rewrite H. reflexivity.
Qed.

Lemma same_ambient_refl w : same_ambient w w.
Proof. by repeat split. Qed.

Lemma same_ambient_trans w1 w2 w3 :
  same_ambient w1 w2 -> same_ambient w2 w3 -> same_ambient w1 w3.
Proof.
  intros (?&?&?&?&?&?) (?&?&?&?&?&?). repeat split; congruence.
Qed.

Lemma Forall2_impl_in {A B} (P Q : A -> B -> Prop) l k :
  Forall2 P l k -> (forall x y, x ∈ l -> P x y -> Q x y) -> Forall2 Q l k.
Proof.
  induction 1 as [|x y l k Hxy Hlk IH]; intros HPQ; constructor.
  - apply HPQ; [left|done].
  - apply IH. intros x' y' Hin. apply HPQ. by right.
Qed.

(** The loop of [wrap_model_layers] over the children still to do:
    [pre] is the part of the registry already rewritten. *)
Lemma wrap_children_spec bound a cls fwd ats indent :
  forall todo : list (string * tree),
  Forall (fun nk => forall (w : world) ind,
            is_tree_at (heap w) (snd nk) = true -> NoDup (addrs (snd nk)) ->
            exists p w', (forall fuel, bound <= fuel ->
                            wrap_model_layers fuel (VRef (root (snd nk))) ind w = Ok p w') /\
                         wrap_post w w' (snd nk) p ind) todo ->
  forall (pre : list (string * addr)) (memo : list addr) (w : world),
  heap w !! a = Some (Plain (Module cls fwd ats (pre ++ map entry todo))) ->
  NoDup (map fst pre ++ map fst todo) ->
  Forall (fun nk => in_names (fst nk) (map fst ats) = false) todo ->
  Forall (fun nk => is_tree_at (heap w) (snd nk) = true) todo ->
  NoDup (a :: flat_map (fun nk => addrs (snd nk)) todo) ->
  (forall nk, nk ∈ todo -> root (snd nk) ∉ memo) ->
  exists ps w',
    (forall fuel, bound <= fuel ->
       wrap_children (wrap_model_layers fuel) a indent (map fst todo) memo w = Ok tt w') /\
    heap w' !! a = Some (Plain (Module cls fwd ats (pre ++ combine (map fst todo) ps))) /\
    Forall2 (fun nk c => wrapped (eq 0%Z) (heap w) (heap w') (length (heap w)) (snd nk) c
                                 indent (indent +:+ tab)) todo ps /\
    (forall x, x < length (heap w) -> x <> a ->
               x ∉ flat_map (fun nk => addrs (snd nk)) todo -> heap w' !! x = heap w !! x) /\
    length (heap w) <= length (heap w') /\
    same_ambient w w'.
Proof.
  induction todo as [|[name k] rest IHrest]; intros IH pre memo w Ha Hnames Hats Htrees Hnd Hmemo.
  - exists [], w. simpl in *. rewrite app_nil_r in Ha.
    split; [done|]. split; [by rewrite app_nil_r|]. split; [constructor|].
    split; [done|]. split; [lia|apply same_ambient_refl].
  - inversion IH as [|? ? IHk IHr]; subst. clear IH.
    inversion Hats as [|? ? Hat Hatr]; subst. clear Hats.
    inversion Htrees as [|? ? Htk Htr]; subst. clear Htrees.
    simpl in Hat, Htk, IHk.
    (* separation facts *)
    simpl in Hnd. apply NoDup_cons in Hnd as [Ha_notin Hnd].
    apply NoDup_app in Hnd as (Hndk & Hdisj & Hndr).
    assert (Hak : a ∉ addrs k) by (intros ?; apply Ha_notin, elem_of_app; by left).
    assert (Har : a ∉ flat_map (fun nk => addrs (snd nk)) rest)
      by (intros ?; apply Ha_notin, elem_of_app; by right).
    assert (Halt : a < length (heap w)) by (by eapply lookup_lt_Some).
    pose proof (is_tree_at_bound _ _ Htk) as Hkb.
    assert (Hrb : forall x, x ∈ flat_map (fun nk => addrs (snd nk)) rest -> x < length (heap w)).
    { intros x Hx. apply list_elem_of_In, in_flat_map in Hx as (nk & Hin & Hx).
      apply list_elem_of_In in Hin, Hx. rewrite Forall_forall in Htr.
      by apply (is_tree_at_bound _ _ (Htr nk Hin)). }
    assert (Hname : name ∉ map fst pre).
    { simpl in Hnames. apply NoDup_app in Hnames as (_ & Hd & _).
      intros Hin. apply (Hd name Hin). left. }
    (* the recursive call *)
    destruct (IHk w (indent +:+ tab) Htk Hndk) as (p1 & w1 & Hwrap & Hw1 & Hfr1 & Hlen1 & Hamb1).
    pose proof (wrapped_proxy_lt _ _ _ _ _ _ _ _ Hw1) as [_ Hp1].
    inversion Hw1 as [rk kids mk psk ? ? ? tm Hrk0 Hrk1 Hp1obj Htm _ Hkids]; subst.
    simpl in Hkb, Hak, Hdisj.
    (* the proxy that is installed *)
    set (c := length (heap w1)).
    set (w2 := set_heap (heap w1 ++ [Timed {| _module := rk; _module_name := class_name mk;
                                             _total_time_ms := 0%Z; _indent := indent |}]) w1).
    assert (Ha1 : heap w1 !! a = Some (Plain (Module cls fwd ats (pre ++ map entry ((name, Node rk kids) :: rest))))).
    { rewrite Hfr1; done. }
    assert (Ha2 : heap w2 !! a = Some (Plain (Module cls fwd ats (pre ++ map entry ((name, Node rk kids) :: rest))))).
    { simpl. rewrite lookup_app_l; [done|lia]. }
    set (w3 := set_heap (<[a := Plain (Module cls fwd ats (pre ++ (name, c) :: map entry rest))]> (heap w2)) w2).
    assert (Hchain : forall x, x < length (heap w1) -> x <> a -> heap w3 !! x = heap w1 !! x).
    { intros x Hx Hxa. simpl. rewrite list_lookup_insert_ne by done. by rewrite lookup_app_l. }
    assert (Hc3 : heap w3 !! c = Some (Timed {| _module := rk; _module_name := class_name mk;
                                               _total_time_ms := 0%Z; _indent := indent |})).
    { simpl. rewrite list_lookup_insert_ne by (unfold c; lia).
      unfold c. by rewrite list_lookup_middle. }
    assert (Hlen3 : length (heap w3) = S (length (heap w1))).
    { simpl. rewrite length_insert, length_app. simpl. lia. }
    assert (Hnames' : NoDup (map fst (pre ++ [(name, c)]) ++ map fst rest)).
    { rewrite map_app. simpl. rewrite <- app_assoc. exact Hnames. }
    assert (Htr3 : Forall (fun nk => is_tree_at (heap w3) (snd nk) = true) rest).
    { apply Forall_forall. intros nk Hin. rewrite Forall_forall in Htr.
      rewrite <- (Htr nk Hin). apply is_tree_at_ext. intros x Hx.
      assert (Hxr : x ∈ flat_map (fun nk => addrs (snd nk)) rest).
      { apply list_elem_of_In, in_flat_map. exists nk. split; by apply list_elem_of_In. }
      rewrite Hchain.
      - apply Hfr1; [by apply Hrb|]. intros Hxk. by apply (Hdisj x Hxk).
      - specialize (Hrb x Hxr). lia.
      - intros ->. by apply Har. }
    assert (Hmemo' : forall nk, nk ∈ rest -> root (snd nk) ∉ rk :: memo).
    { intros nk Hin Hel. apply elem_of_cons in Hel as [Hel|Hel].
      - apply (Hdisj rk); [left|]. rewrite <- Hel.
        apply list_elem_of_In, in_flat_map. exists nk. split; [by apply list_elem_of_In|].
        destruct (snd nk). simpl. by left.
      - apply (Hmemo nk); [by right|done]. }
    destruct (IHrest IHr (pre ++ [(name, c)]) (rk :: memo) w3) as
      (ps & w' & Hloop & Ha' & Hps & Hfr' & Hlen' & Hamb'); try done.
    { simpl. rewrite list_lookup_insert_eq; [by rewrite <- app_assoc|]. rewrite length_app. lia. }
    { by apply NoDup_cons. }
    assert (Hfinal : forall x, x < length (heap w1) -> x <> a ->
                               x ∉ flat_map (fun nk => addrs (snd nk)) rest ->
                               heap w' !! x = heap w1 !! x).
    { intros x Hx Hxa Hxr. rewrite Hfr'; [by apply Hchain|lia|done|done]. }
    exists (c :: ps), w'. split; [|split; [|split; [|split; [|split]]]].
    + intros fuel Hf. simpl. unfold bind at 1. unfold deref. rewrite Ha. simpl.
      rewrite assoc_app_r by done. simpl. rewrite String.eqb_refl.
      rewrite bool_decide_eq_false_2 by (apply (Hmemo (name, Node rk kids)); left).
      simpl in Hwrap. unfold bind at 1. rewrite (Hwrap fuel Hf).
      unfold bind at 1. rewrite (init_ok w1 rk _ indent Hrk1). simpl class_name. fold c. fold w2.
      unfold bind at 1. rewrite (setattr_ok w2 a _ name c Ha2). simpl.
      rewrite (assoc_del_notin name ats Hat).
      change (entry (name, Node rk kids)) with (name, rk).
      rewrite assoc_set_app_r by done.
      exact (Hloop fuel Hf).
    + rewrite Ha'. simpl. by rewrite <- app_assoc.
    + constructor.
      * simpl.
        assert (Hw1' : wrapped (eq 0%Z) (heap w) (heap w') (length (heap w)) (Node rk kids) p1
                               (indent +:+ tab) (indent +:+ tab)).
        { eapply wrapped_mono; [exact Hw1|done|done|lia|].
          intros x [Hx|Hx]; apply Hfinal.
          - specialize (Hkb x Hx). lia.
          - intros ->. by apply Hak.
          - by apply Hdisj.
          - lia.
          - lia.
          - intros Hxr. specialize (Hrb x Hxr). lia. }
        inversion Hw1' as [? ? mk' psk' ? ? ? tm' Hrk0' Hrk1' Hp1obj' Htm' _ Hkids']; subst.
        rewrite Hrk0 in Hrk0'. injection Hrk0' as <-.
        apply (wrapped_node _ _ _ _ rk kids mk psk' c indent (indent +:+ tab) 0%Z); try done.
        -- rewrite Hfr'; [done|lia| |].
           ++ unfold c. lia.
           ++ intros Hxr. specialize (Hrb _ Hxr). unfold c in Hxr. lia.
        -- eapply Forall2_impl; [exact Hkids'|]. cbv beta. intros nk ck [Hwk Hlt].
           split; [done|]. unfold c. lia.
      * eapply Forall2_impl_in; [exact Hps|]. cbv beta. intros nk ck Hin Hwk.
        eapply wrapped_mono; [exact Hwk|done| |lia|done].
        intros x Hx. symmetry.
        assert (Hxr : x ∈ flat_map (fun nk => addrs (snd nk)) rest).
        { apply list_elem_of_In, in_flat_map. exists nk. split; by apply list_elem_of_In. }
        rewrite Hchain.
        -- apply Hfr1; [by apply Hrb|]. intros Hxk. by apply (Hdisj x Hxk).
        -- specialize (Hrb x Hxr). lia.
        -- intros ->. by apply Har.
    + intros x Hx Hxa Hxn.
      change (x ∉ addrs (Node rk kids) ++ flat_map (fun nk => addrs (snd nk)) rest) in Hxn.
      rewrite Hfinal; [|lia|done|].
      * apply Hfr1; [done|]. intros Hxk. apply Hxn, elem_of_app. by left.
      * intros Hxr. apply Hxn, elem_of_app. by right.
    + lia.
    + eapply same_ambient_trans; [exact Hamb1|].
      eapply same_ambient_trans; [|exact Hamb'].
      destruct Hamb1 as (?&?&?&?&?&?). by repeat split.
Qed.

Lemma height_kid a kids nk :
  nk ∈ kids -> S (height (snd nk)) <= height (Node a kids).
Proof.
  simpl. induction kids as [|nk' kids IH]; intros Hin.
  - by apply elem_of_nil in Hin.
  - simpl. apply elem_of_cons in Hin as [->|Hin]; [lia|].
    specialize (IH Hin). lia.
Qed.

Lemma registry_ok_inv m :
  registry_ok m = true ->
  Forall (fun n => in_names n (map fst (attrs m)) = false /\ in_names n Module_methods = false)
         (map fst (_modules m)) /\
  Forall (fun nv => is_ref (snd nv) = false) (attrs m) /\
  NoDup (map fst (_modules m)).
Proof.
  unfold registry_ok. intros H.
  apply andb_true_iff in H as [H H3]. apply andb_true_iff in H as [H1 H2].
  split; [|split].
  - apply Forall_forall. intros n Hn. rewrite forallb_forall in H1.
    apply list_elem_of_In in Hn. specialize (H1 n Hn).
    apply andb_true_iff in H1 as [Ha Hb]. split; by apply negb_true_iff.
  - apply Forall_forall. intros nv Hn. rewrite forallb_forall in H2.
    apply list_elem_of_In in Hn. by apply negb_true_iff, H2.
  - by apply bool_decide_eq_true in H3.
Qed.

Lemma map_fst_entry kids : map fst (map entry kids) = map fst kids.
Proof. induction kids as [|[n k] kids IH]; simpl; [done|]. by f_equal. Qed.

(** [wrap_model_layers] on a tree succeeds with any fuel above the
    height, with the same result, and leaves the tree wrapped. *)
Lemma wrap_spec t :
  forall (w : world) indent,
  is_tree_at (heap w) t = true -> NoDup (addrs t) ->
  exists p w', (forall fuel, height t < fuel ->
                  wrap_model_layers fuel (VRef (root t)) indent w = Ok p w') /\
               wrap_post w w' t p indent.
Proof.
  induction t as [a kids IH] using tree_ind'.
  intros w indent Ht Hnd.
  pose proof (is_tree_at_inv _ _ _ Ht) as (m & Ha & Hmods & Hreg & Hkids).
  apply registry_ok_inv in Hreg as (Hnames & _ & Hndn).
  destruct m as [cls fwd ats mods]. simpl in Hmods, Hnames, Hndn. subst mods.
  rewrite map_fst_entry in Hnames, Hndn.
  set (w0 := printed (Text (indent +:+ cls)) w).
  assert (Hloop : exists ps w',
    (forall fuel, height (Node a kids) <= fuel ->
       wrap_children (wrap_model_layers fuel) a indent (map fst kids) [] w0 = Ok tt w') /\
    heap w' !! a = Some (Plain (Module cls fwd ats ([] ++ combine (map fst kids) ps))) /\
    Forall2 (fun nk c => wrapped (eq 0%Z) (heap w0) (heap w') (length (heap w0)) (snd nk) c
                                 indent (indent +:+ tab)) kids ps /\
    (forall x, x < length (heap w0) -> x <> a ->
               x ∉ flat_map (fun nk => addrs (snd nk)) kids -> heap w' !! x = heap w0 !! x) /\
    length (heap w0) <= length (heap w') /\
    same_ambient w0 w').
  { apply wrap_children_spec; try done.
    - apply Forall_forall. intros nk Hin w1 ind Ht1 Hnd1.
      rewrite Forall_forall in IH.
      destruct (IH nk Hin w1 ind Ht1 Hnd1) as (p1 & w1' & Hw & Hpost).
      exists p1, w1'. split; [|done]. intros fuel Hf. apply Hw.
      pose proof (height_kid a kids nk Hin). lia.
    - apply Forall_forall. intros nk Hin. rewrite Forall_forall in Hnames.
      apply Hnames. apply list_elem_of_fmap. by exists nk.
    - intros nk _ Hel. by apply elem_of_nil in Hel. }
  destruct Hloop as (ps & w' & Hloop & Ha' & Hps & Hfr & Hlen & Hamb).
  simpl in Ha', Hps, Hfr, Hlen.
  exists (length (heap w')),
         (set_heap (heap w' ++ [Timed {| _module := a; _module_name := cls;
                                        _total_time_ms := 0%Z; _indent := indent |}]) w').
  split; [|split; [|split; [|split]]].
  - intros fuel Hf. destruct fuel as [|fuel]; [lia|].
    simpl. unfold bind, get_heap, assert, deref, print. simpl. rewrite Ha. simpl. rewrite Ha. simpl.
    rewrite map_fst_entry. fold w0. rewrite (Hloop fuel) by lia.
    by rewrite (init_ok w' a _ indent Ha').
  - apply (wrapped_node _ _ _ _ a kids (Module cls fwd ats (map entry kids)) ps
                        (length (heap w')) indent indent 0%Z); try done.
    + simpl. rewrite lookup_app_l; [done|]. by eapply lookup_lt_Some.
    + simpl. by rewrite list_lookup_middle.
    + eapply Forall2_impl_in; [exact Hps|]. cbv beta. intros nk c Hin Hw.
      pose proof (wrapped_proxy_lt _ _ _ _ _ _ _ _ Hw) as [_ Hlt].
      split; [|done].
      eapply wrapped_mono; [exact Hw|done|done|lia|].
      intros x Hx. simpl. rewrite lookup_app_l; [done|].
      destruct Hx as [Hx|Hx]; [|lia].
      rewrite Forall_forall in Hkids.
      pose proof (is_tree_at_bound _ _ (Hkids nk Hin) x Hx). lia.
  - intros x Hx Hxn. simpl. rewrite lookup_app_l by lia.
    apply Hfr; [done| |].
    + intros ->. apply Hxn. simpl. left.
    + intros Hxk. apply Hxn. simpl. by right.
  - simpl. rewrite length_app. simpl. lia.
  - destruct Hamb as (?&?&?&?&?&?). by repeat split.
Qed.

Arguments object_getattribute : simpl never.
Arguments in_names : simpl never.

(** ** Invoking a tree of plain modules *)

Lemma getattr_plain (w : world) a m name :
  heap w !! a = Some (Plain m) ->
  getattr a name w =
  match object_getattribute a (Plain m) name with
  | Some v => Ok v w
  | None => match assoc name (_modules m) with
            | Some c => Ok (VRef c) w
            | None => Err (AttributeError name) w
            end
  end.
Proof.
  intros H. unfold getattr, getattr_pure.
  assert (E : forall d, getattr_rec d (heap w) a name =
    match object_getattribute a (Plain m) name with
    | Some v => inl v
    | None => match assoc name (_modules m) with
              | Some c => inl (VRef c)
              | None => inr (AttributeError name)
              end
    end).
  { intros d. destruct d; simpl; rewrite H; unfold Module_getattr; simpl;
      destruct (object_getattribute a (Plain m) name); try done;
      by destruct (assoc name (_modules m)). }
  rewrite E. destruct (object_getattribute a (Plain m) name); [done|].
  by destruct (assoc name (_modules m)).
Qed.

Lemma own_not_ref a m name v :
  registry_ok m = true ->
  object_getattribute a (Plain m) name = Some v -> is_ref v = false.
Proof.
  intros Hreg. apply registry_ok_inv in Hreg as (_ & Hats & _).
  unfold object_getattribute. destruct (assoc name (attrs m)) as [u|] eqn:E.
  - intros [= <-]. apply assoc_Some_in in E. rewrite Forall_forall in Hats.
    apply (Hats _ E).
  - destruct (in_names name Module_methods); [|done]. by intros [= <-].
Qed.

Lemma call_not_ref fuel v arg (w : world) :
  is_ref v = false -> call fuel v arg w = Err (call_error v) w.
Proof. destruct fuel, v; simpl; try done. Qed.

Lemma assoc_map {V W} (f : V -> W) name (l : list (string * V)) :
  assoc name (map (fun nk => (fst nk, f (snd nk))) l) = option_map f (assoc name l).
Proof.
  induction l as [|[n v] l IH]; simpl; [done|].
  by destruct (String.eqb name n).
Qed.

(** In a store that holds the plain tree, [run] computes [interp]. *)
Lemma run_plain (w : world) rec a m kids g :
  heap w !! a = Some (Plain m) ->
  _modules m = map entry kids ->
  registry_ok m = true ->
  grad_enabled w = g ->
  (forall nk arg, nk ∈ kids ->
     rec (VRef (root (snd nk))) arg w = lift (denote (heap w) g (snd nk) arg) w) ->
  (forall v arg, is_ref v = false -> rec v arg w = Err (call_error v) w) ->
  forall p,
  run getattr rec a p w =
  lift (interp (object_getattribute a (Plain m))
               (map (fun nk => (fst nk, denote (heap w) g (snd nk))) kids) g p) w.
Proof.
  intros Ha Hmods Hreg Hg Hrec Hnr. induction p as [v|e|name arg k IH|k IH]; simpl.
  - done.
  - done.
  - unfold bind. rewrite (getattr_plain w a m name Ha).
    destruct (object_getattribute a (Plain m) name) as [v|] eqn:Eown.
    + rewrite Hnr; [done|]. by eapply own_not_ref.
    + rewrite Hmods. unfold entry. rewrite (assoc_map root name kids).
      rewrite (assoc_map (denote (heap w) g) name kids).
      destruct (assoc name kids) as [kt|] eqn:Ek; simpl; [|done].
      apply assoc_Some_in in Ek. pose proof (Hrec (name, kt) arg Ek) as Hk.
      simpl in Hk. rewrite Hk.
      destruct (denote (heap w) g kt arg); simpl; [apply IH|done].
  - unfold bind, is_grad_enabled. rewrite Hg. apply IH.
Qed.

(** Invoking the root of a plain tree computes [denote] and changes
    nothing. *)
Lemma call_plain t :
  forall fuel (w : world) arg,
  is_tree_at (heap w) t = true -> height t < fuel ->
  call fuel (VRef (root t)) arg w = lift (denote (heap w) (grad_enabled w) t arg) w.
Proof.
  induction t as [a kids IH] using tree_ind'. intros fuel w arg Ht Hfuel.
  destruct fuel as [|fuel]; [lia|].
  pose proof (is_tree_at_inv _ _ _ Ht) as (m & Ha & Hmods & Hreg & Hkids).
  simpl. unfold bind, deref. rewrite Ha.
  apply run_plain with (m := m); try done.
  - intros nk arg' Hin. rewrite Forall_forall in IH, Hkids.
    apply IH; [done|by apply Hkids|].
    pose proof (height_kid a kids nk Hin). lia.
  - intros v arg'. apply call_not_ref.
Qed.

(** ** Invoking a wrapped tree *)

Lemma with_time_id t : with_time t (_total_time_ms t) = t.
Proof. by destruct t. Qed.

Lemma evolves_refl Q h : evolves Q h h.
Proof.
  split; [done|]. intros x [m|t] Hx; [done|].
  exists (_total_time_ms t). rewrite with_time_id. by split; [|left].
Qed.

Lemma evolves_trans Q h1 h2 h3 : evolves Q h1 h2 -> evolves Q h2 h3 -> evolves Q h1 h3.
Proof.
  intros [L1 E1] [L2 E2]. split; [congruence|].
  intros x [m|t] Hx.
  - apply (E2 x (Plain m)). apply (E1 x (Plain m) Hx).
  - destruct (E1 x (Timed t) Hx) as (ms & H2 & Hms).
    destruct (E2 x _ H2) as (ms' & H3 & Hms').
    exists ms'. split; [exact H3|]. simpl in Hms'.
    destruct Hms' as [->|?]; [exact Hms|by right].
Qed.

Lemma evolves_insert (Q : Z -> Prop) (h : list obj) p t ms :
  h !! p = Some (Timed t) -> Q ms -> evolves Q h (<[p := Timed (with_time t ms)]> h).
Proof.
  intros Hp HQ. split; [by rewrite length_insert|].
  intros x o Hx. destruct (decide (x = p)) as [->|Hne].
  - rewrite Hp in Hx. injection Hx as <-. exists ms.
    rewrite list_lookup_insert_eq by (by eapply lookup_lt_Some). by split; [|right].
  - rewrite list_lookup_insert_ne by done. destruct o as [m|t']; [done|].
    exists (_total_time_ms t'). rewrite with_time_id. by split; [|left].
Qed.

(** [wrapped] survives changes of recorded times. *)
Lemma wrapped_evolves Q0 Q Q' h0 h h' lo t :
  forall p ip ik,
  wrapped Q0 h0 h lo t p ip ik ->
  evolves Q h h' ->
  (forall z, Q0 z -> Q' z) -> (forall z, Q z -> Q' z) ->
  wrapped Q' h0 h' lo t p ip ik.
Proof.
  induction t as [a kids IH] using tree_ind'.
  intros p ip ik Hw [Hlen Hev] H0 H1.
  inversion Hw as [? ? m ps ? ? ? tm Ha0 Ha Hp Htm Hlop Hkids]; subst.
  destruct (Hev p _ Hp) as (ms & Hp' & Hms). simpl in Hp', Hms.
  apply (wrapped_node Q' h0 h' lo a kids m ps p ip ik ms); try done.
  - apply (Hev a _ Ha).
  - destruct Hms as [->|?]; auto.
  - clear Hw Ha0 Ha Hp Hp'.
    induction Hkids as [|nk c kids ps [Hhd Hlt] Htl IHk]; constructor.
    + inversion IH; subst. split; [|done]. eapply H3; eauto. by split.
    + inversion IH; subst. by apply IHk.
Qed.

Lemma own_same a m c f r name :
  object_getattribute a (Plain (Module c f (attrs m) r)) name =
  object_getattribute a (Plain m) name.
Proof. reflexivity. Qed.

Lemma assoc_combine (R : string * tree -> addr -> Prop) name kids ps :
  Forall2 R kids ps ->
  match assoc name kids with
  | Some k => exists c, assoc name (combine (map fst kids) ps) = Some c /\
                        R (name, k) c /\ (name, k) ∈ kids
  | None => assoc name (combine (map fst kids) ps) = None
  end.
Proof.
  induction 1 as [|[n k] c kids ps Hhd Htl IH]; simpl; [done|].
  destruct (String.eqb_spec name n) as [->|Hne].
  - exists c. split; [done|]. split; [done|left].
  - destruct (assoc name kids) as [k'|]; [|done].
    destruct IH as (c' & ? & ? & ?). exists c'. split; [done|]. split; [done|by right].
Qed.

Lemma call_post_refl Q w : call_post Q w w.
Proof. split; [apply evolves_refl|]. by repeat split. Qed.

Lemma call_post_trans Q w1 w2 w3 : call_post Q w1 w2 -> call_post Q w2 w3 -> call_post Q w1 w3.
Proof.
  intros (E1&?&?&?&?) (E2&?&?&?&?). split; [by eapply evolves_trans|].
  repeat split; try congruence. lia.
Qed.

Lemma clock_ok_post Q w w' : clock_ok Q w -> call_post Q w w' -> clock_ok Q w'.
Proof.
  intros Hc (_&_&Hclk&Hr&_) r r' H1 H2. rewrite Hclk. apply Hc; lia.
Qed.

(** In a store that holds the wrapped tree, run inside the no-gradient
    context, [run] computes [interp] at gradient mode [false]; only
    recorded times change. *)
Lemma run_wrapped Q rec a m kids ps h0 lo ik :
  h0 !! a = Some (Plain m) ->
  registry_ok m = true ->
  (forall nk c arg (w : world), nk ∈ kids ->
     wrapped (fun _ => True) h0 (heap w) lo (snd nk) c ik (ik +:+ tab) ->
     clock_ok Q w ->
     exists w', rec (VRef c) arg w = lift (denote h0 false (snd nk) arg) w' /\
                call_post Q w w') ->
  (forall v arg (w : world), is_ref v = false -> rec v arg w = Err (call_error v) w) ->
  forall p (w : world),
  heap w !! a = Some (Plain (Module (class_name m) (forward_body m) (attrs m)
                                    (combine (map fst kids) ps))) ->
  Forall2 (fun nk c => wrapped (fun _ => True) h0 (heap w) lo (snd nk) c ik (ik +:+ tab))
          kids ps ->
  grad_enabled w = false ->
  clock_ok Q w ->
  exists w', run getattr rec a p w =
             lift (interp (object_getattribute a (Plain m))
                          (map (fun nk => (fst nk, denote h0 false (snd nk))) kids) false p) w' /\
             call_post Q w w'.
Proof.
  intros Ha0 Hreg Hrec Hnr.
  induction p as [v|e|name arg k IH|k IH]; intros w Ha Hkids Hg Hclk; simpl.
  - exists w. split; [done|apply call_post_refl].
  - exists w. split; [done|apply call_post_refl].
  - unfold bind. rewrite (getattr_plain w a _ name Ha). rewrite own_same.
    destruct (object_getattribute a (Plain m) name) as [v|] eqn:Eown.
    + exists w. split; [|apply call_post_refl].
      rewrite Hnr; [done|]. by eapply own_not_ref.
    + simpl _modules. rewrite (assoc_map (denote h0 false) name kids).
      pose proof (assoc_combine _ name kids ps Hkids) as Hac.
      destruct (assoc name kids) as [kt|] eqn:Ek; simpl.
      * destruct Hac as (c & Hc & Hwc & Hin). rewrite Hc.
        destruct (Hrec (name, kt) c arg w Hin Hwc Hclk) as (w1 & Hcall & Hpost).
        rewrite Hcall. simpl.
        destruct (denote h0 false kt arg) as [v|e]; simpl.
        -- pose proof Hpost as (Hev & Hg1 & Hclk1 & Hr1 & Hcu1).
           destruct (IH v w1) as (w2 & Hrun & Hpost2).
           ++ destruct Hev as [_ Hev]. apply (Hev a _ Ha).
           ++ eapply Forall2_impl; [exact Hkids|]. cbv beta. intros nk ck Hw.
              eapply wrapped_evolves; [exact Hw|exact Hev|done|done].
           ++ congruence.
           ++ eapply clock_ok_post; [exact Hclk|exact Hpost].
           ++ exists w2. split; [done|].
              eapply call_post_trans; [exact Hpost|exact Hpost2].
        -- exists w1. by split.
      * rewrite Hac. exists w. split; [done|apply call_post_refl].
  - unfold bind, is_grad_enabled. rewrite Hg. by apply IH.
Qed.

Lemma call_S fuel a arg (w : world) :
  call (S fuel) (VRef a) arg w =
  match heap w !! a with
  | Some (Plain m) => run getattr (call fuel) a (forward_body m arg) w
  | Some (Timed _) => forward (call fuel) a arg w
  | None => Err (RuntimeError "no such object") w
  end.
Proof. simpl. unfold bind, deref. by destruct (heap w !! a) as [[|]|]. Qed.

(** [forward] is: enter, invoke the wrapped module, finish. *)
Lemma forward_eq rec p t arg (w : world) :
  heap w !! p = Some (Timed t) ->
  forward rec p arg w =
  match rec (VRef (_module t)) arg (enter w) with
  | Ok x w1 => finish p (clock w (reads w)) (grad_enabled w) x w1
  | Err e w1 => Err e (set_grad_enabled (grad_enabled w) w1)
  | OutOfFuel => OutOfFuel
  end.
Proof.
  intros Hp. cbv beta iota delta [forward finally bind time_time fields deref enter tick]. simpl.
  rewrite Hp. simpl.
  destruct (rec (VRef (_module t)) arg _) as [x w1|e w1|]; try done.
Qed.

Lemma finish_ok p t start_time prev x (w : world) :
  heap w !! p = Some (Timed t) ->
  finish p start_time prev x w = Ok x (finished p t start_time prev w).
Proof.
  intros Hp. assert (Hlt : p < length (heap w)) by (by eapply lookup_lt_Some).
  cbv beta iota delta [finish finished finally bind is_available synchronize time_time
    set_total_time_ms fields deref get_heap put_heap logger_info ret tick logged].
  destruct (cuda_available w) eqn:Hcu; simpl; rewrite ?Hcu; simpl; rewrite Hp; simpl;
    rewrite list_lookup_insert_eq by done; simpl; reflexivity.
Qed.

(** Invoking the proxy of a wrapped tree computes [denote] at gradient
    mode [false], whatever the caller's mode. *)
Lemma call_wrapped Q t :
  forall fuel (w : world) arg p ip ik Q0 h0 lo,
  wrapped Q0 h0 (heap w) lo t p ip ik ->
  is_tree_at h0 t = true ->
  2 * height t + 1 < fuel ->
  clock_ok Q w ->
  exists w', call fuel (VRef p) arg w = lift (denote h0 false t arg) w' /\
             call_post Q w w'.
Proof.
  induction t as [a kids IH] using tree_ind'.
  intros fuel w arg p ip ik Q0 h0 lo Hw Ht Hfuel Hclk.
  destruct fuel as [|[|fuel]]; [lia|lia|].
  pose proof (is_tree_at_inv _ _ _ Ht) as (m0 & Ha0' & Hmods & Hreg & Htk).
  inversion Hw as [? ? m ps ? ? ? tm Ha0 Ha Hp Htm Hlop Hkids]; subst.
  rewrite Ha0 in Ha0'. injection Ha0' as <-.
  rewrite call_S, Hp.
  rewrite (forward_eq _ p _ arg w Hp). simpl _module.
  rewrite call_S. change (heap (enter w)) with (heap w). rewrite Ha.
  simpl forward_body.
  assert (Hclk1 : clock_ok Q (enter w)).
  { intros r r' H1 H2. simpl in *. apply Hclk; lia. }
  destruct (run_wrapped Q (call fuel) a m kids ps h0 lo ik Ha0 Hreg) with
    (p := forward_body m arg) (w := enter w) as (w1 & Hrun & Hpost); try done.
  - intros nk c arg' w' Hin Hwc Hclk'. rewrite Forall_forall in IH, Htk.
    eapply IH; eauto.
    pose proof (height_kid a kids nk Hin). lia.
  - intros v arg' w'. apply call_not_ref.
  - eapply Forall2_impl; [exact Hkids|]. cbv beta. intros nk c [Hwc _].
    eapply wrapped_mono; [exact Hwc|done|done|lia|done].
  - rewrite Hrun. simpl denote. rewrite Ha0.
    destruct (interp _ _ false (forward_body m arg)) as [v|e]; simpl.
    + pose proof Hpost as ([Hlen Hev] & Hg1 & Hc1 & Hr1 & Hcu1).
      destruct (Hev p _ Hp) as (ms & Hp1 & _).
      rewrite (finish_ok p _ _ _ v w1 Hp1).
      eexists. split; [reflexivity|].
      unfold call_post, finished. simpl in *. split; [|repeat split; try done; lia].
      eapply evolves_trans; [by split|].
      replace (with_time (with_time _ ms) _) with
        (with_time (with_time {| _module := a; _module_name := class_name m;
                                 _total_time_ms := tm; _indent := ip |} ms)
                   ((clock w1 (reads w1) - clock w (reads w)) * 1000)%Z) by done.
      apply evolves_insert; [done|]. rewrite Hc1. apply Hclk; lia.
    + eexists. split; [reflexivity|].
      destruct Hpost as (Hev & Hg1 & Hc1 & Hr1 & Hcu1). unfold call_post, set_grad_enabled. simpl in *.
      split; [done|]. repeat split; try done. lia.
Qed.

(** ** The timing report of a wrapped tree *)

Lemma distinct_children_id l :
  forall memo, NoDup (map snd l) -> (forall c, c ∈ map snd l -> c ∉ memo) ->
  distinct_children memo l = l.
Proof.
  induction l as [|[n c] l IH]; intros memo Hnd Hmemo; simpl; [done|].
  simpl in Hnd. apply NoDup_cons in Hnd as [Hc Hnd].
  rewrite bool_decide_eq_false_2 by (apply Hmemo; simpl; left).
  f_equal. apply IH; [done|]. intros c' Hc' Hel.
  apply elem_of_cons in Hel as [->|Hel]; [done|].
  apply (Hmemo c'); [simpl; by right|done].
Qed.

Lemma map_snd_combine {A B} (l : list A) (k : list B) :
  length l = length k -> map snd (combine l k) = k.
Proof.
  revert k. induction l as [|x l IH]; intros [|y k]; simpl; try done.
  intros [= H]. f_equal. by apply IH.
Qed.

Lemma wrapped_module Q h0 h lo t c ip ik :
  wrapped Q h0 h lo t c ip ik ->
  exists tl, h !! c = Some (Timed tl) /\ _module tl = root t.
Proof. intros H. inversion H; subst. eexists. split; [eassumption|done]. Qed.

Lemma wrapped_proxies_NoDup Q h0 h lo ik ik' (kids : list (string * tree)) (ps : list addr) :
  Forall2 (fun nk c => wrapped Q h0 h lo (snd nk) c ik ik') kids ps ->
  NoDup (map (fun nk => root (snd nk)) kids) ->
  NoDup ps.
Proof.
  induction 1 as [|[n k] c kids ps Hhd Htl IH]; simpl; intros Hnd; [constructor|].
  apply NoDup_cons in Hnd as [Hk Hnd]. apply NoDup_cons. split; [|by apply IH].
  intros Hc. apply Hk.
  apply list_elem_of_lookup in Hc as [i Hi].
  destruct (Forall2_lookup_r _ _ _ _ _ Htl Hi) as (nk & Hnk & Hw).
  apply wrapped_module in Hhd as (tl & Hc1 & Hm1).
  apply wrapped_module in Hw as (tl' & Hc2 & Hm2).
  rewrite Hc1 in Hc2. injection Hc2 as <-. simpl in Hm1. rewrite <- Hm1, Hm2.
  apply list_elem_of_fmap. exists nk. split; [done|]. by eapply list_elem_of_lookup_2.
Qed.

Lemma roots_in_addrs (kids : list (string * tree)) :
  forall x, x ∈ map (fun nk : string * tree => root (snd nk)) kids ->
            x ∈ flat_map (fun nk => addrs (snd nk)) kids.
Proof.
  induction kids as [|[n [a ks]] kids IH]; simpl; intros x Hx; [done|].
  apply elem_of_cons in Hx as [->|Hx]; [left|]. right. apply elem_of_app. right. by apply IH.
Qed.

Lemma roots_NoDup (kids : list (string * tree)) :
  NoDup (flat_map (fun nk : string * tree => addrs (snd nk)) kids) ->
  NoDup (map (fun nk : string * tree => root (snd nk)) kids).
Proof.
  induction kids as [|[n [a ks]] kids IH]; simpl; intros Hnd; [constructor|].
  apply NoDup_cons in Hnd as [Ha Hnd]. apply NoDup_app in Hnd as (_ & _ & Hnd).
  apply NoDup_cons. split; [|by apply IH].
  intros Hin. apply Ha, elem_of_app. right. by apply roots_in_addrs.
Qed.

Lemma durations_nonneg_all r : all_times (fun ms => 0 <= ms)%Z r -> durations_nonneg r = true.
Proof.
  revert r. fix IH 1. intros [name ms subs] [Hms Hsubs]. simpl.
  apply andb_true_iff. split; [by apply Z.leb_le|].
  induction subs as [|s subs IHs]; simpl; [done|].
  destruct Hsubs as [Hs Hsubs]. apply andb_true_iff. split; [by apply IH|by apply IHs].
Qed.

(** The report of a wrapped tree has the shape of the tree and holds the
    recorded times. *)
Lemma get_timings_wrapped Q t :
  forall fuel (w : world) p ip ik h0 lo,
  wrapped Q h0 (heap w) lo t p ip ik ->
  NoDup (addrs t) ->
  height t < fuel ->
  exists r, get_timings fuel p w = Ok r w /\
            shape_of r = component_shape h0 t /\
            all_times Q r.
Proof.
  induction t as [a kids IH] using tree_ind'.
  intros fuel w p ip ik h0 lo Hw Hnd Hfuel.
  destruct fuel as [|fuel]; [lia|].
  inversion Hw as [? ? m ps ? ? ? tm Ha0 Ha Hp Htm Hlop Hkids]; subst.
  simpl in Hnd. apply NoDup_cons in Hnd as [_ Hnd].
  assert (Hps : NoDup ps).
  { eapply wrapped_proxies_NoDup; [|by apply roots_NoDup].
    eapply Forall2_impl; [exact Hkids|]. cbv beta. intros ? ? [? ?]. eassumption. }
  assert (Hlen : length (map fst kids) = length ps).
  { rewrite length_map. by eapply Forall2_length. }
  assert (Hsubs : exists rs,
    sub_timings (get_timings fuel) (combine (map fst kids) ps) w = Ok rs w /\
    map shape_of rs = map (fun nk => component_shape h0 (snd nk)) kids /\
    fold_right (fun s acc => all_times Q s /\ acc) True rs).
  { assert (Hh : forall nk, nk ∈ kids -> height (snd nk) < fuel).
    { intros nk Hin. pose proof (height_kid a kids nk Hin). lia. }
    clear Hw Ha Hp Hps Hlen Hfuel.
    induction Hkids as [|[n k] c kids ps [Hhd _] Htl IHk]; simpl.
    - exists []. by repeat split.
    - inversion IH as [|? ? IHhd IHtl]; subst. simpl in IHhd.
      simpl in Hnd. apply NoDup_app in Hnd as (Hndk & _ & Hndr).
      destruct (IHhd fuel w c _ _ h0 lo Hhd Hndk) as (r & Hr & Hsh & Hall).
      { apply (Hh (n, k)). left. }
      destruct (IHk IHtl Hndr) as (rs & Hrs & Hshs & Halls).
      { intros nk Hin. apply Hh. by right. }
      exists (r :: rs). unfold bind, get_heap. simpl.
      pose proof (wrapped_proxy_lt _ _ _ _ _ _ _ _ Hhd) as _.
      inversion Hhd as [? ? ? ? ? ? ? ? _ _ Hc _ _ _]; subst. rewrite Hc.
      rewrite Hr, Hrs. split; [done|]. split; [by f_equal|done]. }
  destruct Hsubs as (rs & Hrs & Hshs & Halls).
  exists (Timings (class_name m) tm rs). split; [|split].
  - simpl. cbv beta iota delta [bind fields named_children deref ret].
    rewrite Hp. simpl. rewrite Ha. simpl.
    rewrite distinct_children_id.
    + by rewrite Hrs.
    + by rewrite map_snd_combine.
    + intros c _ Hel. by apply elem_of_nil in Hel.
  - simpl. rewrite Ha0. simpl. by f_equal.
  - simpl. by split.
Qed.

(** ** Consequences for [wrap_model_layers] *)

Lemma is_tree_inv h t : is_tree h t = true -> is_tree_at h t = true /\ NoDup (addrs t).
Proof.
  unfold is_tree. intros H. apply andb_true_iff in H as [H1 H2].
  split; [done|]. by apply bool_decide_eq_true in H2.
Qed.

Lemma wrapped_proxied Q h0 h lo t :
  forall p ip ik, wrapped Q h0 h lo t p ip ik -> proxied h p.
Proof.
  induction t as [a kids IH] using tree_ind'. intros p ip ik Hw.
  inversion Hw as [? ? m ps ? ? ? tm Ha0 Ha Hp Htm Hlop Hkids]; subst.
  eapply proxied_intro; [exact Hp|exact Ha|]. simpl.
  clear Hw Ha Hp. induction Hkids as [|nk c kids ps [Hhd _] Htl IHk]; simpl; constructor.
  - inversion IH; subst. simpl. eauto.
  - inversion IH; subst. by apply IHk.
Qed.

Lemma wrapped_bottom_up Q h0 h lo t :
  forall p ip ik, wrapped Q h0 h lo t p ip ik -> bottom_up h p.
Proof.
  induction t as [a kids IH] using tree_ind'. intros p ip ik Hw.
  inversion Hw as [? ? m ps ? ? ? tm Ha0 Ha Hp Htm Hlop Hkids]; subst.
  eapply bottom_up_intro; [exact Hp|exact Ha|]. simpl.
  clear Hw Ha Hp. induction Hkids as [|nk c kids ps [Hhd Hlt] Htl IHk]; simpl; constructor.
  - inversion IH; subst. simpl. eauto.
  - inversion IH; subst. by apply IHk.
Qed.

Lemma wrapped_covers Q h0 h lo t :
  forall p ip ik, wrapped Q h0 h lo t p ip ik -> covers h t p.
Proof.
  induction t as [a kids IH] using tree_ind'. intros p ip ik Hw.
  inversion Hw as [? ? m ps ? ? ? tm Ha0 Ha Hp Htm Hlop Hkids]; subst.
  eapply covers_node; [exact Hp|done|exact Ha|]. simpl.
  clear Hw Ha Hp. induction Hkids as [|nk c kids ps [Hhd _] Htl IHk]; simpl; constructor.
  - inversion IH; subst. simpl. eauto.
  - inversion IH; subst. by apply IHk.
Qed.

(** C3 (as amended, for [pytorchures]): after [wrap_model_layers] on a
    component tree, the returned object is a [TimedLayer] around the
    root of the tree and, recursively, the slot of every child of every
    module of the tree holds a [TimedLayer] around that child; no slot
    below the returned object holds a raw module. *)
Theorem C3_full_coverage (w : world) (t : tree) (indent : string) :
  is_tree (heap w) t = true ->
  exists p w',
    (forall fuel, height t < fuel ->
       wrap_model_layers fuel (VRef (root t)) indent w = Ok p w') /\
    proxied (heap w') p /\
    covers (heap w') t p.
Proof.
  intros Ht. apply is_tree_inv in Ht as [Ht Hnd].
  destruct (wrap_spec t w indent Ht Hnd) as (p & w' & Hwrap & Hw & _).
  exists p, w'. split; [done|]. split.
  - by eapply wrapped_proxied.
  - by eapply wrapped_covers.
Qed.

Lemma C3_full_coverage_witness :
  exists p w',
    (forall fuel, height demo_tree < fuel ->
       wrap_model_layers fuel (VRef (root demo_tree)) tab demo_world = Ok p w') /\
    proxied (heap w') p /\
    covers (heap w') demo_tree p.
Proof. apply (C3_full_coverage demo_world demo_tree tab). reflexivity. Defined.

(** C4 (as amended, for [pytorchures]): [wrap_model_layers] on an
    unwrapped tree with root [a] keeps the root object at [a] and
    replaces, in place, each entry of its registry by a new
    [TimedLayer] around that child; the child is fully wrapped, bottom
    up, and its proxy was created before the root's own proxy; the
    function returns a new [TimedLayer] whose wrapped module is [a]
    itself. *)
Theorem C4_wrap_contract (w : world) (a : addr) (kids : list (string * tree)) (indent : string) :
  is_tree (heap w) (Node a kids) = true ->
  exists p w' m ps,
    (forall fuel, height (Node a kids) < fuel ->
       wrap_model_layers fuel (VRef a) indent w = Ok p w') /\
    heap w !! a = Some (Plain m) /\
    heap w' !! a = Some (Plain (Module (class_name m) (forward_body m) (attrs m)
                                       (combine (map fst (_modules m)) ps))) /\
    Forall2 (fun nc c => exists tl, heap w' !! c = Some (Timed tl) /\ _module tl = snd nc /\
                                    bottom_up (heap w') c /\ length (heap w) <= c < p)
            (_modules m) ps /\
    length (heap w) <= p /\
    heap w' !! p = Some (Timed {| _module := a; _module_name := class_name m;
                                  _total_time_ms := 0%Z; _indent := indent |}).
Proof.
  intros Ht. apply is_tree_inv in Ht as [Ht Hnd].
  destruct (wrap_spec _ w indent Ht Hnd) as (p & w' & Hwrap & Hw & _).
  apply is_tree_at_inv in Ht as (m & Ha & Hmods & _ & _).
  inversion Hw as [? ? m' ps ? ? ? tm Ha0 Ha' Hp Htm Hlop Hkids]; subst.
  rewrite Ha in Ha0. injection Ha0 as <-.
  exists p, w', m, ps. split; [done|]. split; [done|].
  rewrite Hmods, map_fst_entry. split; [done|]. split; [|split; [done|done]].
  clear Hw Ha Ha' Hp Hmods Hwrap.
  induction Hkids as [|nk c kids ps [Hhd Hlt] Htl IHk]; simpl; constructor.
  - pose proof (wrapped_bottom_up _ _ _ _ _ _ _ _ Hhd) as Hpr.
    pose proof (wrapped_proxy_lt _ _ _ _ _ _ _ _ Hhd) as [Hlo _].
    apply wrapped_module in Hhd as (tl & Hc & Hm).
    exists tl. simpl. repeat split; try done.
  - apply IHk. simpl in Hnd. apply NoDup_cons in Hnd as [Hn1 Hn2].
    apply NoDup_app in Hn2 as (_ & _ & Hn2). apply NoDup_cons. split; [|done].
    intros Hin. apply Hn1. simpl. apply elem_of_app. by right.
Qed.

Lemma C4_wrap_contract_witness :
  exists p w' m ps,
    (forall fuel, height demo_tree < fuel ->
       wrap_model_layers fuel (VRef 0) tab demo_world = Ok p w') /\
    heap demo_world !! 0 = Some (Plain m) /\
    heap w' !! 0 = Some (Plain (Module (class_name m) (forward_body m) (attrs m)
                                       (combine (map fst (_modules m)) ps))) /\
    Forall2 (fun nc c => exists tl, heap w' !! c = Some (Timed tl) /\ _module tl = snd nc /\
                                    bottom_up (heap w') c /\ length (heap demo_world) <= c < p)
            (_modules m) ps /\
    length (heap demo_world) <= p /\
    heap w' !! p = Some (Timed {| _module := 0; _module_name := class_name m;
                                  _total_time_ms := 0%Z; _indent := tab |}).
Proof.
  apply (C4_wrap_contract demo_world 0
           [("conv", Node 1 []); ("body", Node 2 [("act", Node 3 [])])] tab).
  reflexivity.
Defined.

(** ** Transparency *)

(** C1 fails as stated: wrapped, the probe returns [False] where the
    direct invocation returns [True], because [forward] runs the
    wrapped module under [torch.no_grad()]. *)
Lemma C1_counterexample :
  is_tree (heap probe_world) (Node 0 []) = true /\
  result (call 1 (VRef 0) VNone probe_world) = Some (inl (VBool true)) /\
  exists p w',
    wrap_model_layers 1 (VRef 0) tab probe_world = Ok p w' /\
    result (call 2 (VRef p) VNone w') = Some (inl (VBool false)) /\
    result (call 2 (VRef p) VNone w') <> result (call 1 (VRef 0) VNone probe_world).
Proof.
  split; [reflexivity|]. split; [reflexivity|].
  eexists _, _. split; [reflexivity|]. split; [reflexivity|]. discriminate.
Qed.

Lemma set_grad_same (w : world) g : grad_enabled w = g -> set_grad_enabled g w = w.
Proof. destruct w. simpl. by intros ->. Qed.

(** C1 (as amended, for [pytorchures]): for every component tree and
    argument, invoking the proxy returned by [wrap_model_layers]
    returns or raises exactly what the root itself returns or raises
    for that argument with gradient recording off; so the two agree
    whenever recording is already off at the call. *)
Theorem C1_transparency_under_no_grad (w : world) (t : tree) (indent : string) (arg : value) :
  is_tree (heap w) t = true ->
  exists p w' r,
    (forall fuel, height t < fuel ->
       wrap_model_layers fuel (VRef (root t)) indent w = Ok p w') /\
    (forall fuel, height t < fuel ->
       result (call fuel (VRef (root t)) arg (set_grad_enabled false w)) = Some r) /\
    (forall fuel, 2 * height t + 1 < fuel ->
       result (call fuel (VRef p) arg w') = Some r) /\
    (grad_enabled w = false ->
     forall fuel, height t < fuel -> result (call fuel (VRef (root t)) arg w) = Some r).
Proof.
  intros Ht. apply is_tree_inv in Ht as [Ht Hnd].
  destruct (wrap_spec t w indent Ht Hnd) as (p & w' & Hwrap & Hw & _).
  exists p, w', (denote (heap w) false t arg).
  assert (Hdirect : forall fuel, height t < fuel ->
    result (call fuel (VRef (root t)) arg (set_grad_enabled false w)) =
    Some (denote (heap w) false t arg)).
  { intros fuel Hf. rewrite call_plain by done. simpl.
    by destruct (denote (heap w) false t arg). }
  split; [done|]. split; [done|]. split.
  - intros fuel Hf.
    destruct (call_wrapped (fun _ => True) t fuel w' arg p indent indent _ (heap w) _ Hw Ht Hf)
      as (w2 & Hcall & _); [done|].
    rewrite Hcall. by destruct (denote (heap w) false t arg).
  - intros Hg fuel Hf. rewrite <- (set_grad_same w false Hg) at 1. by apply Hdirect.
Qed.

Lemma C1_transparency_under_no_grad_witness :
  exists p w' r,
    (forall fuel, height demo_tree < fuel ->
       wrap_model_layers fuel (VRef (root demo_tree)) tab demo_world = Ok p w') /\
    (forall fuel, height demo_tree < fuel ->
       result (call fuel (VRef (root demo_tree)) (VInt 5) (set_grad_enabled false demo_world))
       = Some r) /\
    (forall fuel, 2 * height demo_tree + 1 < fuel ->
       result (call fuel (VRef p) (VInt 5) w') = Some r) /\
    (grad_enabled demo_world = false ->
     forall fuel, height demo_tree < fuel ->
       result (call fuel (VRef (root demo_tree)) (VInt 5) demo_world) = Some r).
Proof. apply (C1_transparency_under_no_grad demo_world demo_tree tab (VInt 5)). reflexivity. Defined.

(** ** Construction preconditions *)

(** C2 (as amended, for [pytorchures]): constructing a [TimedLayer]
    around a [TimedLayer], or around a value that is not a module,
    fails with an assertion error and creates nothing; so does
    [wrap_model_layers] on such a value. *)
Theorem C2_no_double_wrap (w : world) (v : value) (indent : string) :
  isinstance_TimedLayer (heap w) v = true \/ isinstance_Module (heap w) v = false ->
  __init__ v indent w = Err AssertionError w /\
  forall fuel, wrap_model_layers (S fuel) v indent w = Err AssertionError w.
Proof.
  intros H. unfold __init__. simpl. unfold bind, get_heap, assert.
  destruct (isinstance_Module (heap w) v) eqn:Hm; simpl.
  - destruct H as [H|H]; [|done]. rewrite H. simpl. done.
  - done.
Qed.

Lemma C2_no_double_wrap_witness :
  __init__ (VRef 1) tab wrapped_once = Err AssertionError wrapped_once /\
  forall fuel, wrap_model_layers (S fuel) (VRef 1) tab wrapped_once
               = Err AssertionError wrapped_once.
Proof. apply (C2_no_double_wrap wrapped_once (VRef 1) tab). left. reflexivity. Defined.

(** ** The [object_detection] variant on concrete inputs *)

(** C2 fails as stated: in [object_detection] the constructor checks
    nothing, so a [TimedLayer] around a [TimedLayer] and one around a
    number are both created. *)
Lemma C2_counterexample :
  (exists w', ObjectDetection.__init__ (VRef 1) tab OD.wrapped_once = Ok 2 w' /\
              heap w' !! 2 = Some (Timed {| ObjectDetection.layer := VRef 1;
                                            ObjectDetection._total_time := 0%Z;
                                            ObjectDetection.indent := tab |}) /\
              isinstance_TimedLayer (heap OD.wrapped_once) (VRef 1) = true) /\
  (exists w', ObjectDetection.__init__ (VInt 5) tab OD.wrapped_once = Ok 2 w' /\
              isinstance_Module (heap OD.wrapped_once) (VInt 5) = false).
Proof. split; eexists; repeat split. Qed.

(** C3 fails as stated: [object_detection]'s [wrap_model_layers]
    returns nothing and leaves the root a plain module; no [TimedLayer]
    is created around it. *)
Lemma C3_counterexample :
  exists w', ObjectDetection.wrap_model_layers 3 (VRef 0) tab OD.net = Ok tt w' /\
             isinstance_TimedLayer (heap w') (VRef 0) = false /\
             existsb (OD.wraps 0) (heap w') = false.
Proof. eexists. split; [reflexivity|]. split; reflexivity. Qed.

(** C4 fails as stated: [object_detection]'s [wrap_model_layers]
    returns no proxy of the root, and the proxy of [Seq] (address 3) is
    created and installed before [Seq]'s own child is wrapped
    (address 4). *)
Lemma C4_counterexample :
  exists w',
    ObjectDetection.wrap_model_layers 4 (VRef 0) tab OD.deep = Ok tt w' /\
    existsb (OD.wraps 0) (heap w') = false /\
    map OD.summary (heap w') =
    [ inl ("Net", [("body", 3)]); inl ("Seq", [("act", 4)]); inl ("ReLU", []);
      inr {| ObjectDetection.layer := VRef 1; ObjectDetection._total_time := 0%Z;
             ObjectDetection.indent := tab |};
      inr {| ObjectDetection.layer := VRef 2; ObjectDetection._total_time := 0%Z;
             ObjectDetection.indent := tab +:+ tab |} ].
Proof. eexists. split; [reflexivity|]. split; reflexivity. Qed.

(** ** Failures of the delegate *)

(** C5: when the wrapped module's invocation raises [e], invoking the
    [TimedLayer] raises the same [e]; the world is the one that single
    invocation left, with the gradient mode restored.  When a profiled
    function raises [e], the wrapper of [profile_function] raises the
    same [e] and the world is the one the function left. *)
Theorem C5_no_masking (fuel : nat) (w w1 : world) (p : addr) (t : TimedLayer)
    (arg : value) (e : exn) :
  heap w !! p = Some (Timed t) ->
  (call fuel (VRef (_module t)) arg (enter w) = Err e w1 ->
   call (S fuel) (VRef p) arg w = Err e (set_grad_enabled (grad_enabled w) w1)) /\
  (forall f : function TimedLayer,
     body f arg (tick w) = Err e w1 ->
     body (profile_function f) arg w = Err e w1).
Proof.
  intros Hp. split.
  - intros Hcall. rewrite call_S, Hp, (forward_eq _ p t arg w Hp), Hcall. reflexivity.
  - intros f Hf. simpl. unfold bind, time_time. by rewrite Hf.
Qed.

Lemma C5_no_masking_witness :
  call 2 (VRef 1) VNone failing_world =
    Err (UserError (VStr "boom")) (set_grad_enabled true (enter failing_world)) /\
  body (profile_function failing_function) VNone failing_world =
    Err (UserError (VStr "boom")) (tick failing_world).
Proof.
  pose proof (C5_no_masking 1 failing_world (enter failing_world) 1
                {| _module := 0; _module_name := "Failing"; _total_time_ms := 0%Z;
                   _indent := tab |} VNone (UserError (VStr "boom")) eq_refl) as [H _].
  pose proof (C5_no_masking 1 failing_world (tick failing_world) 1
                {| _module := 0; _module_name := "Failing"; _total_time_ms := 0%Z;
                   _indent := tab |} VNone (UserError (VStr "boom")) eq_refl) as [_ H'].
  split; [exact (H eq_refl)|exact (H' failing_function eq_refl)].
Defined.

(** ** The function profiler *)

(** C7 fails as stated: the line is formatted with [f.__name__] after
    [f] has returned.  For a callable without [__name__] the call
    [f(21)] returns [42], but the wrapper raises [AttributeError] after
    the second reading of the clock: the result is lost, no line is
    written, and the wrapper keeps its own name [wrap].  The same in
    both variants. *)
Lemma C7_counterexample :
  (body doubler (VInt 21) (tick demo_world) = Ok (VInt 42) (tick demo_world) /\
   body (profile_function doubler) (VInt 21) demo_world =
     Err (AttributeError "__name__") (tick (tick demo_world)) /\
   log (tick (tick demo_world)) = log demo_world /\
   __name__ (profile_function doubler) = Some "wrap" /\
   __name__ doubler = None) /\
  (body doubler_od (VInt 21) (tick OD.net) = Ok (VInt 42) (tick OD.net) /\
   body (ObjectDetection.profile_function doubler_od) (VInt 21) OD.net =
     Err (AttributeError "__name__") (tick (tick OD.net)) /\
   stdout (tick (tick OD.net)) = stdout OD.net /\
   __name__ (ObjectDetection.profile_function doubler_od) = Some "wrap" /\
   __name__ doubler_od = None).
Proof. repeat split. Qed.

(** C7 (as amended): when [f] has a [__name__] and returns [v] for [x],
    the wrapper made by [profile_function] returns [v]; beyond what [f]
    itself did it reads the clock once more and writes exactly one
    line, under the name of [f] (to the log in [pytorchures], to stdout
    in [object_detection]); and the wrapper carries the name and the
    documentation of [f]. *)
Theorem C7_profile_function :
  (forall (f : function TimedLayer) (name : string) (x v : value) (w w1 : world),
     __name__ f = Some name ->
     body f x (tick w) = Ok v w1 ->
     body (profile_function f) x w =
       Ok v (logged (FunctionLine name
                       ((clock w1 (reads w1) - clock w (reads w)) * 1000)%Z) (tick w1)) /\
     __name__ (profile_function f) = __name__ f /\
     __doc__ (profile_function f) = __doc__ f) /\
  (forall (f : function ObjectDetection.TimedLayer) (name : string) (x v : value)
          (w w1 : ObjectDetection.world),
     __name__ f = Some name ->
     body f x (tick w) = Ok v w1 ->
     body (ObjectDetection.profile_function f) x w =
       Ok v (printed (FunctionLine name
                        ((clock w1 (reads w1) - clock w (reads w)) * 1000)%Z) (tick w1)) /\
     __name__ (ObjectDetection.profile_function f) = __name__ f /\
     __doc__ (ObjectDetection.profile_function f) = __doc__ f).
Proof.
  split; intros f name x v w w1 Hn Hf; (split; [|split; [simpl; by rewrite Hn|done]]);
    simpl; unfold bind, time_time, get_name; rewrite Hf, Hn; reflexivity.
Qed.

Lemma C7_profile_function_witness :
  body (profile_function double) (VInt 21) demo_world =
    Ok (VInt 42) (logged (FunctionLine "double" 1000%Z) (tick (tick demo_world))) /\
  body (ObjectDetection.profile_function double_od) (VInt 21) OD.net =
    Ok (VInt 42) (printed (FunctionLine "double" 1000%Z) (tick (tick OD.net))).
Proof.
  destruct C7_profile_function as [H1 H2]. split.
  - exact (proj1 (H1 double "double" (VInt 21) (VInt 42) demo_world (tick demo_world)
                     eq_refl eq_refl)).
  - exact (proj1 (H2 double_od "double" (VInt 21) (VInt 42) OD.net (tick OD.net)
                     eq_refl eq_refl)).
Defined.

(** ** Attribute forwarding *)

(** C8: an attribute the [TimedLayer] defines itself is the one used;
    any other attribute is the wrapped module's; and an attribute that
    neither defines raises [AttributeError]. *)
Theorem C8_attribute_forwarding (h : list obj) (p : addr) (t : TimedLayer) (m : module)
    (name : string) :
  h !! p = Some (Timed t) ->
  h !! _module t = Some (Plain m) ->
  getattr_pure h p name =
    match proxy_defines p t name with
    | Some v => inl v
    | None =>
        match module_defines (_module t) m name with
        | Some v => inl v
        | None => inr (AttributeError name)
        end
    end.
Proof.
  intros Hp Hm. unfold getattr_pure, proxy_defines, module_defines.
  assert (Hlen : 0 < length h) by (apply lookup_lt_Some in Hp; lia).
  destruct (length h) as [|d]; [lia|].
  cbn [getattr_rec]. rewrite Hp.
  destruct (object_getattribute p (Timed t) name) as [v|]; [done|].
  destruct (Module_getattr (Timed t) name) as [v|]; [done|].
  destruct d; cbn [getattr_rec]; rewrite Hm;
    destruct (object_getattribute (_module t) (Plain m) name) as [v|]; try done;
    by destruct (Module_getattr (Plain m) name).
Qed.

Lemma C8_attribute_forwarding_witness :
  getattr_pure [Plain conv_with_stride; Timed conv_proxy] 1 "_indent" = inl (VStr tab) /\
  getattr_pure [Plain conv_with_stride; Timed conv_proxy] 1 "stride" = inl (VInt 2) /\
  getattr_pure [Plain conv_with_stride; Timed conv_proxy] 1 "padding"
    = inr (AttributeError "padding").
Proof.
  split; [|split].
  - exact (C8_attribute_forwarding [Plain conv_with_stride; Timed conv_proxy] 1 conv_proxy
             conv_with_stride "_indent" eq_refl eq_refl).
  - exact (C8_attribute_forwarding [Plain conv_with_stride; Timed conv_proxy] 1 conv_proxy
             conv_with_stride "stride" eq_refl eq_refl).
  - exact (C8_attribute_forwarding [Plain conv_with_stride; Timed conv_proxy] 1 conv_proxy
             conv_with_stride "padding" eq_refl eq_refl).
Defined.

(** ** The no-gradient context *)

Lemma finally_restores (m : M value) (prev : bool) (w w' : world) :
  final (finally m (set_grad_enabled prev) w) = Some w' -> grad_enabled w' = prev.
Proof.
  unfold finally. destruct (m w) as [x w1|e w1|]; simpl; try done; by intros [= <-].
Qed.

(** C10: [TimedLayer.forward] runs the wrapped module in a world where
    gradient recording is off, whatever the caller's mode; a module
    that asks for the mode there is answered [False]; and the caller's
    mode is back when [forward] returns or raises. *)
Theorem C10_no_grad_context (fuel : nat) (w : world) (p : addr) (t : TimedLayer) (arg : value) :
  heap w !! p = Some (Timed t) ->
  grad_enabled (enter w) = false /\
  call (S fuel) (VRef p) arg w =
    match call fuel (VRef (_module t)) arg (enter w) with
    | Ok x w1 => finish p (clock w (reads w)) (grad_enabled w) x w1
    | Err e w1 => Err e (set_grad_enabled (grad_enabled w) w1)
    | OutOfFuel => OutOfFuel
    end /\
  (forall m k fuel',
     heap w !! _module t = Some (Plain m) ->
     forward_body m arg = IsGradEnabled k ->
     call (S fuel') (VRef (_module t)) arg (enter w) =
     run getattr (call fuel') (_module t) (k false) (enter w)) /\
  (forall w', final (call (S fuel) (VRef p) arg w) = Some w' ->
              grad_enabled w' = grad_enabled w).
Proof.
  intros Hp. split; [reflexivity|].
  assert (Heq : call (S fuel) (VRef p) arg w =
    match call fuel (VRef (_module t)) arg (enter w) with
    | Ok x w1 => finish p (clock w (reads w)) (grad_enabled w) x w1
    | Err e w1 => Err e (set_grad_enabled (grad_enabled w) w1)
    | OutOfFuel => OutOfFuel
    end).
  { by rewrite call_S, Hp, (forward_eq _ p t arg w Hp). }
  split; [exact Heq|]. split.
  - intros m k fuel' Hm Hbody. rewrite call_S. change (heap (enter w)) with (heap w).
    rewrite Hm, Hbody. reflexivity.
  - intros w'. rewrite Heq.
    destruct (call fuel (VRef (_module t)) arg (enter w)) as [x w1|e w1|]; simpl.
    + unfold finish. apply finally_restores.
    + by intros [= <-].
    + done.
Qed.

Lemma C10_no_grad_context_witness :
  grad_enabled probe_wrapped = true /\
  result (call 2 (VRef 1) VNone probe_wrapped) = Some (inl (VBool false)) /\
  (forall w', final (call 2 (VRef 1) VNone probe_wrapped) = Some w' ->
              grad_enabled w' = true).
Proof.
  pose proof (C10_no_grad_context 1 probe_wrapped 1
                {| _module := 0; _module_name := "Probe"; _total_time_ms := 0%Z;
                   _indent := tab |} VNone eq_refl) as (_ & Heq & _ & Hres).
  split; [reflexivity|]. split; [rewrite Heq; reflexivity|exact Hres].
Defined.

(** ** The timing report *)

(** C6 fails as stated: [time.time()] is the wall clock; when it is
    set back between the two readings the recorded duration is
    negative. *)
Lemma C6_counterexample :
  is_tree (heap backwards_world) (Node 0 []) = true /\
  exists p w1 v w2 r,
    wrap_model_layers 1 (VRef 0) tab backwards_world = Ok p w1 /\
    call 2 (VRef p) (VInt 5) w1 = Ok v w2 /\
    get_timings 1 p w2 = Ok r w2 /\
    r = Timings "Conv" (-1000)%Z [] /\
    durations_nonneg r = false.
Proof.
  split; [reflexivity|]. eexists _, _, _, _, _.
  split; [reflexivity|]. split; [reflexivity|]. split; [reflexivity|]. split; reflexivity.
Qed.

(** C6 (as amended): for a wrapped tree whose root proxy has been
    invoked once (whether the invocation returned or raised),
    [get_timings] returns a report of the shape of the original
    component tree, and every duration in it is non-negative provided
    the readings of the clock do not decrease; the report holds an
    entry for a child only if the child is a [TimedLayer]. *)
Theorem C6_timing_report (w : world) (t : tree) (indent : string) (arg : value) :
  is_tree (heap w) t = true ->
  (forall n m, n <= m -> (clock w n <= clock w m)%Z) ->
  (exists p w1,
     (forall fuel, height t < fuel ->
        wrap_model_layers fuel (VRef (root t)) indent w = Ok p w1) /\
     forall fuel, 2 * height t + 1 < fuel ->
       exists w2, final (call fuel (VRef p) arg w1) = Some w2 /\
         forall fuel', height t < fuel' ->
           exists r, get_timings fuel' p w2 = Ok r w2 /\
                     shape_of r = component_shape (heap w) t /\
                     durations_nonneg r = true) /\
  (forall get name child rest (w0 : world),
     isinstance_TimedLayer (heap w0) (VRef child) = false ->
     sub_timings get ((name, child) :: rest) w0 = sub_timings get rest w0).
Proof.
  intros Ht Hmono. split.
  - apply is_tree_inv in Ht as [Ht Hnd].
    destruct (wrap_spec t w indent Ht Hnd) as (p & w1 & Hwrap & Hw & _ & _ & Hamb).
    destruct Hamb as (Hclk & Hreads & _).
    exists p, w1. split; [done|]. intros fuel Hf.
    destruct (call_wrapped (fun ms => 0 <= ms)%Z t fuel w1 arg p indent indent _ (heap w) _
                Hw Ht Hf) as (w2 & Hcall & Hev & _).
    { intros r r' H1 H2. rewrite Hclk.
      assert (clock w r <= clock w r')%Z by (apply Hmono; lia). lia. }
    exists w2. split.
    { rewrite Hcall. by destruct (denote (heap w) false t arg). }
    intros fuel' Hf'.
    assert (Hw2 : wrapped (fun ms => 0 <= ms)%Z (heap w) (heap w2) (length (heap w)) t p
                          indent indent).
    { eapply wrapped_evolves; [exact Hw|exact Hev| |done]. by intros z <-. }
    destruct (get_timings_wrapped _ t fuel' w2 p indent indent (heap w) _ Hw2 Hnd Hf')
      as (r & Hr & Hshape & Hall).
    exists r. split; [done|]. split; [done|]. by apply durations_nonneg_all.
  - intros get name child rest w0 Hc. cbn [sub_timings]. unfold bind, get_heap. by rewrite Hc.
Qed.

Lemma C6_timing_report_witness :
  (exists p w1,
     (forall fuel, height demo_tree < fuel ->
        wrap_model_layers fuel (VRef (root demo_tree)) tab demo_world = Ok p w1) /\
     forall fuel, 2 * height demo_tree + 1 < fuel ->
       exists w2, final (call fuel (VRef p) (VInt 5) w1) = Some w2 /\
         forall fuel', height demo_tree < fuel' ->
           exists r, get_timings fuel' p w2 = Ok r w2 /\
                     shape_of r = component_shape (heap demo_world) demo_tree /\
                     durations_nonneg r = true) /\
  (forall get name child rest (w0 : world),
     isinstance_TimedLayer (heap w0) (VRef child) = false ->
     sub_timings get ((name, child) :: rest) w0 = sub_timings get rest w0).
Proof.
  apply (C6_timing_report demo_world demo_tree tab (VInt 5)).
  - reflexivity.
  - intros n m Hnm. simpl. lia.
Defined.

(** ** Indentation *)

(** C9 at [wrap_model_layers(Net(fc = Linear))] with the default
    indent: the proxy installed for [fc] has the indent of the root's
    proxy, one tab, not two; the names printed while wrapping are one
    level apart. *)
Theorem C9_child_indent_equals_root_indent :
  exists p c w' tp tc m,
    wrap_model_layers 2 (VRef 0) tab net_world = Ok p w' /\
    heap w' !! p = Some (Timed tp) /\ _module tp = 0 /\
    heap w' !! 0 = Some (Plain m) /\ _modules m = [("fc", c)] /\
    heap w' !! c = Some (Timed tc) /\ _module tc = 1 /\
    _indent tp = tab /\ _indent tc = tab /\ _indent tc <> tab +:+ tab /\
    stdout w' = [Text (tab +:+ "Net"); Text (tab +:+ tab +:+ "Linear")].
Proof.
  eexists _, _, _, _, _, _. split; [reflexivity|].
  split; [reflexivity|]. split; [reflexivity|]. split; [reflexivity|].
  split; [reflexivity|]. split; [reflexivity|]. split; [reflexivity|].
  split; [reflexivity|]. split; [reflexivity|]. split; [discriminate|reflexivity].
Qed.

(** In general the children's proxies carry the indent the function
    was called with, which is also the indent of the root's proxy. *)
Lemma installed_indent_levels (w : world) (a : addr) (kids : list (string * tree))
    (indent : string) :
  is_tree (heap w) (Node a kids) = true ->
  exists p w' tp m,
    (forall fuel, height (Node a kids) < fuel ->
       wrap_model_layers fuel (VRef a) indent w = Ok p w') /\
    heap w' !! p = Some (Timed tp) /\ _module tp = a /\ _indent tp = indent /\
    heap w' !! a = Some (Plain m) /\
    Forall (fun nc => exists tc, heap w' !! snd nc = Some (Timed tc) /\ _indent tc = indent)
           (_modules m).
Proof.
  intros Ht. apply is_tree_inv in Ht as [Ht Hnd].
  destruct (wrap_spec _ w indent Ht Hnd) as (p & w' & Hwrap & Hw & _).
  inversion Hw as [? ? m' ps ? ? ? tm Ha0 Ha' Hp Htm Hlop Hkids]; subst.
  eexists p, w', _, _. split; [done|]. split; [exact Hp|]. split; [done|]. split; [done|].
  split; [exact Ha'|]. simpl.
  clear Hw Ha' Hp Ht Hnd Hwrap Ha0 Hlop.
  induction Hkids as [|nk c kids ps [Hhd _] Htl IHk]; simpl; constructor.
  - inversion Hhd; subst. simpl. eauto.
  - exact IHk.
Qed.

(** * Further properties of the code *)

(** ** [wrap_model_layers] ([pytorchures]) beyond the tree *)

(** X1: [wrap_model_layers] on a tree changes no object outside the
    tree, and nothing of the ambient state but stdout: the clock, the
    gradient mode, the device state and the log are as before. *)
Theorem X1_wrap_frame (w : world) (t : tree) (indent : string) :
  is_tree (heap w) t = true ->
  exists p w',
    (forall fuel, height t < fuel ->
       wrap_model_layers fuel (VRef (root t)) indent w = Ok p w') /\
    (forall x o, x ∉ addrs t -> heap w !! x = Some o -> heap w' !! x = Some o) /\
    clock w' = clock w /\ reads w' = reads w /\ grad_enabled w' = grad_enabled w /\
    cuda_available w' = cuda_available w /\ cuda_syncs w' = cuda_syncs w /\
    log w' = log w.
Proof.
  intros Ht. apply is_tree_inv in Ht as [Ht Hnd].
  destruct (wrap_spec t w indent Ht Hnd) as (p & w' & Hwrap & _ & Hfr & _ & Hamb).
  exists p, w'. split; [done|]. split; [|exact Hamb].
  intros x o Hx Ho. rewrite Hfr; [done| |done]. by eapply lookup_lt_Some.
Qed.

Lemma X1_wrap_frame_witness :
  exists p w',
    (forall fuel, height (Node 0 []) < fuel ->
       wrap_model_layers fuel (VRef (root (Node 0 []))) tab wrapped_once = Ok p w') /\
    (forall x o, x ∉ addrs (Node 0 []) -> heap wrapped_once !! x = Some o ->
                 heap w' !! x = Some o) /\
    clock w' = clock wrapped_once /\ reads w' = reads wrapped_once /\
    grad_enabled w' = grad_enabled wrapped_once /\
    cuda_available w' = cuda_available wrapped_once /\
    cuda_syncs w' = cuda_syncs wrapped_once /\
    log w' = log wrapped_once.
Proof. apply (X1_wrap_frame wrapped_once (Node 0 []) tab). reflexivity. Defined.

(** ** Reports and repeated invocations *)

Lemma timings_ind' (P : timings -> Prop) :
  (forall name ms subs, Forall P subs -> P (Timings name ms subs)) ->
  forall r, P r.
Proof.
  intros H. fix IH 1. intros [name ms subs]. apply H.
  induction subs as [|s subs IHs]; constructor; [apply IH | exact IHs].
Qed.

Lemma zero_report_unique r :
  forall r', all_times (eq 0%Z) r -> all_times (eq 0%Z) r' ->
             shape_of r = shape_of r' -> r = r'.
Proof.
  induction r as [n ms subs IH] using timings_ind'.
  intros [n' ms' subs'] [Hms Hsubs] [Hms' Hsubs'] Hsh.
  simpl in Hsh. injection Hsh as Hn Heq. subst. f_equal.
  revert subs' Heq Hsubs'. induction subs as [|s subs IHs]; intros [|s' subs'] Heq Hs';
    simpl in *; try done.
  injection Heq as Hs Heq. destruct Hsubs as [H1 H2]. destruct Hs' as [H1' H2'].
  inversion IH; subst. f_equal; [by auto|by apply IHs].
Qed.

(** X2: right after wrapping, before any invocation, [get_timings] on
    the returned proxy gives a report of the shape of the tree in which
    every duration is [0]; taking the report changes nothing. *)
Theorem X2_fresh_report (w : world) (t : tree) (indent : string) :
  is_tree (heap w) t = true ->
  exists p w' r,
    (forall fuel, height t < fuel ->
       wrap_model_layers fuel (VRef (root t)) indent w = Ok p w') /\
    (forall fuel, height t < fuel -> get_timings fuel p w' = Ok r w') /\
    shape_of r = component_shape (heap w) t /\
    all_times (eq 0%Z) r.
Proof.
  intros Ht. apply is_tree_inv in Ht as [Ht Hnd].
  destruct (wrap_spec t w indent Ht Hnd) as (p & w' & Hwrap & Hw & _).
  destruct (get_timings_wrapped _ t (S (height t)) w' p indent indent (heap w) _ Hw Hnd)
    as (r & Hr & Hshape & Hall); [lia|].
  exists p, w', r. split; [done|]. split; [|done].
  intros fuel Hf.
  destruct (get_timings_wrapped _ t fuel w' p indent indent (heap w) _ Hw Hnd Hf)
    as (r' & Hr' & Hshape' & Hall').
  rewrite Hr'. f_equal. apply zero_report_unique; [done|done|congruence].
Qed.

Lemma X2_fresh_report_witness :
  exists p w' r,
    (forall fuel, height demo_tree < fuel ->
       wrap_model_layers fuel (VRef (root demo_tree)) tab demo_world = Ok p w') /\
    (forall fuel, height demo_tree < fuel -> get_timings fuel p w' = Ok r w') /\
    shape_of r = component_shape (heap demo_world) demo_tree /\
    all_times (eq 0%Z) r.
Proof. apply (X2_fresh_report demo_world demo_tree tab). reflexivity. Defined.

(** X3: when the wrapped module returns [x], [TimedLayer.forward]
    returns [x]; it reads the clock once more, after synchronising the
    device when there is one; the recorded time becomes the new
    duration whatever it was before; one line with the proxy's indent,
    name and that duration is the last of the log; and the caller's
    gradient mode is restored. *)
Theorem X3_forward_records (fuel : nat) (w w1 : world) (p : addr) (t t1 : TimedLayer)
    (arg x : value) :
  heap w !! p = Some (Timed t) ->
  call fuel (VRef (_module t)) arg (enter w) = Ok x w1 ->
  heap w1 !! p = Some (Timed t1) ->
  exists w',
    call (S fuel) (VRef p) arg w = Ok x w' /\
    let ms := ((clock w1 (reads w1) - clock w (reads w)) * 1000)%Z in
    heap w' = <[p := Timed (with_time t1 ms)]> (heap w1) /\
    log w' = log w1 ++ [LayerLine (_indent t1) (_module_name t1) ms] /\
    reads w' = S (reads w1) /\
    cuda_syncs w' = (if cuda_available w1 then S (cuda_syncs w1) else cuda_syncs w1) /\
    grad_enabled w' = grad_enabled w /\
    stdout w' = stdout w1.
Proof.
  intros Hp Hcall Hp1.
  exists (finished p t1 (clock w (reads w)) (grad_enabled w) w1). split.
  - rewrite call_S, Hp, (forward_eq _ p t arg w Hp), Hcall. by apply finish_ok.
  - by repeat split.
Qed.

Lemma X3_forward_records_witness :
  exists w',
    call 2 (VRef 1) (VInt 5) wrapped_once = Ok (VInt 6) w' /\
    let ms := ((clock (enter wrapped_once) (reads (enter wrapped_once))
                - clock wrapped_once (reads wrapped_once)) * 1000)%Z in
    heap w' = <[1 := Timed (with_time {| _module := 0; _module_name := "Conv";
                                         _total_time_ms := 0%Z; _indent := tab |} ms)]>
                (heap (enter wrapped_once)) /\
    log w' = log (enter wrapped_once) ++ [LayerLine tab "Conv" ms] /\
    reads w' = S (reads (enter wrapped_once)) /\
    cuda_syncs w' = (if cuda_available (enter wrapped_once)
                     then S (cuda_syncs (enter wrapped_once))
                     else cuda_syncs (enter wrapped_once)) /\
    grad_enabled w' = grad_enabled wrapped_once /\
    stdout w' = stdout (enter wrapped_once).
Proof.
  exact (X3_forward_records 1 wrapped_once (enter wrapped_once) 1
           {| _module := 0; _module_name := "Conv"; _total_time_ms := 0%Z; _indent := tab |}
           {| _module := 0; _module_name := "Conv"; _total_time_ms := 0%Z; _indent := tab |}
           (VInt 5) (VInt 6) eq_refl eq_refl eq_refl).
Defined.



(** One step of [wrap_model_layers] on a plain module, on a
    [TimedLayer], and of its loop. *)
Lemma wrap_S_plain fuel a m indent (w : world) :
  heap w !! a = Some (Plain m) ->
  wrap_model_layers (S fuel) (VRef a) indent w =
  match wrap_children (wrap_model_layers fuel) a indent (map fst (_modules m)) []
                      (printed (Text (indent +:+ class_name m)) w) with
  | Ok _ w1 => __init__ (VRef a) indent w1
  | Err e w1 => Err e w1
  | OutOfFuel => OutOfFuel
  end.
Proof.
  intros Ha. simpl. unfold bind, get_heap, assert, deref, print. simpl.
  rewrite Ha. simpl. rewrite Ha. reflexivity.
Qed.

Lemma wrap_S_timed fuel c t indent (w : world) :
  heap w !! c = Some (Timed t) ->
  wrap_model_layers (S fuel) (VRef c) indent w = Err AssertionError w.
Proof.
  intros Hc. simpl. unfold bind, get_heap, assert. simpl. rewrite Hc. reflexivity.
Qed.

Lemma wrap_children_cons wrap model o indent name keys memo child (w : world) :
  heap w !! model = Some o ->
  assoc name (modules_of o) = Some child ->
  child ∉ memo ->
  wrap_children wrap model indent (name :: keys) memo w =
  match wrap (VRef child) (indent +:+ tab) w with
  | Ok _ w1 =>
      match __init__ (VRef child) indent w1 with
      | Ok wrapped_child w2 =>
          match setattr model name wrapped_child w2 with
          | Ok _ w3 => wrap_children wrap model indent keys (child :: memo) w3
          | Err e w3 => Err e w3
          | OutOfFuel => OutOfFuel
          end
      | Err e w2 => Err e w2
      | OutOfFuel => OutOfFuel
      end
  | Err e w1 => Err e w1
  | OutOfFuel => OutOfFuel
  end.
Proof.
  intros Hm Ha Hmemo. simpl. unfold bind at 1. unfold deref. rewrite Hm. rewrite Ha.
  rewrite bool_decide_eq_false_2 by done. reflexivity.
Qed.

(** X5: wrapping is not idempotent.  After [wrap_model_layers] on a
    tree whose root has a child, [wrap_model_layers] on the same root
    prints the root's name and then fails with an assertion error at
    the first child, which is now a [TimedLayer]; nothing else
    changes. *)
Theorem X5_second_wrap_fails (w : world) (a : addr) (nk : string * tree)
    (kids : list (string * tree)) (indent indent' : string) :
  is_tree (heap w) (Node a (nk :: kids)) = true ->
  exists p w' m,
    (forall fuel, height (Node a (nk :: kids)) < fuel ->
       wrap_model_layers fuel (VRef a) indent w = Ok p w') /\
    heap w !! a = Some (Plain m) /\
    forall fuel,
      wrap_model_layers (S (S fuel)) (VRef a) indent' w' =
      Err AssertionError (printed (Text (indent' +:+ class_name m)) w').
Proof.
  intros Ht. apply is_tree_inv in Ht as [Ht Hnd].
  destruct (wrap_spec _ w indent Ht Hnd) as (p & w' & Hwrap & Hw & _).
  inversion Hw as [? ? m ps ? ? ? tm Ha0 Ha' Hp Htm Hlop Hkids]; subst.
  exists p, w', m. split; [done|]. split; [done|]. intros fuel.
  inversion Hkids as [|? c ? ps' [Hhd _] Htl]; subst.
  apply wrapped_module in Hhd as (tl & Hc & _).
  rewrite (wrap_S_plain _ a _ indent' w' Ha'). cbn [_modules class_name map fst combine].
  erewrite wrap_children_cons; [| exact Ha' | simpl; by rewrite String.eqb_refl
                                | intros H; by apply elem_of_nil in H].
  by rewrite (wrap_S_timed fuel c tl).
Qed.

Lemma X5_second_wrap_fails_witness :
  exists p w' m,
    (forall fuel, height (Node 0 [("fc", Node 1 [])]) < fuel ->
       wrap_model_layers fuel (VRef 0) tab net_world = Ok p w') /\
    heap net_world !! 0 = Some (Plain m) /\
    forall fuel,
      wrap_model_layers (S (S fuel)) (VRef 0) tab w' =
      Err AssertionError (printed (Text (tab +:+ class_name m)) w').
Proof. apply (X5_second_wrap_fails net_world 0 ("fc", Node 1 []) [] tab tab). reflexivity. Defined.

(** ** [profile_function] composed with itself *)

(** X6: decorating twice profiles twice: when [f] has a [__name__] and
    returns [v], the doubly decorated function returns [v], reads the
    clock four times and writes two lines, the inner one first, both
    under the name of [f], since the first wrapper took the name of
    [f]. *)
Theorem X6_profile_twice (f : function TimedLayer) (name : string) (x v : value)
    (w w1 : world) :
  __name__ f = Some name ->
  body f x (tick (tick w)) = Ok v w1 ->
  body (profile_function (profile_function f)) x w =
    Ok v (logged (FunctionLine name
                    ((clock w1 (S (reads w1)) - clock w (reads w)) * 1000)%Z)
            (tick (logged (FunctionLine name
                             ((clock w1 (reads w1) - clock w (S (reads w))) * 1000)%Z)
                     (tick w1)))).
Proof.
  intros Hn Hf. simpl. unfold bind, time_time, get_name. simpl.
  unfold bind, time_time, get_name.
  change (tick (tick w)) with (tick (tick w)) in Hf. rewrite Hf, Hn. reflexivity.
Qed.

Lemma X6_profile_twice_witness :
  body (profile_function (profile_function double)) (VInt 21) demo_world =
    Ok (VInt 42)
       (logged (FunctionLine "double" 3000%Z)
          (tick (logged (FunctionLine "double" 1000%Z) (tick (tick (tick demo_world)))))).
Proof.
  exact (X6_profile_twice double "double" (VInt 21) (VInt 42) demo_world
           (tick (tick demo_world)) eq_refl eq_refl).
Defined.

(** ** [TimedLayer.forward] of [object_detection] *)

Lemma od_call_S fuel a arg (w : ObjectDetection.world) :
  ObjectDetection.call (S fuel) (VRef a) arg w =
  match heap w !! a with
  | Some (Plain m) =>
      run ObjectDetection.getattr (ObjectDetection.call fuel) a (forward_body m arg) w
  | Some (Timed _) => ObjectDetection.forward (ObjectDetection.call fuel) a arg w
  | None => Err (RuntimeError "no such object") w
  end.
Proof. simpl. unfold bind, ObjectDetection.deref. by destruct (heap w !! a) as [[|]|]. Qed.

(** X7: [object_detection]'s [forward] synchronises the device
    unconditionally: when [torch.cuda.synchronize()] raises (no CUDA
    device), the invocation raises that error although the layer has
    already returned; the result is lost, no duration is recorded and
    nothing is printed. *)
Theorem X7_od_forward_needs_cuda (fuel : nat) (w w1 w2 : ObjectDetection.world) (p : addr)
    (t : ObjectDetection.TimedLayer) (arg x : value) (e : exn) :
  heap w !! p = Some (Timed t) ->
  ObjectDetection.call fuel (ObjectDetection.layer t) arg (tick w) = Ok x w1 ->
  synchronize w1 = Err e w2 ->
  ObjectDetection.call (S fuel) (VRef p) arg w = Err e w2 /\
  w2 = w1 /\ cuda_available w1 = false.
Proof.
  intros Hp Hcall Hsync. split.
  - rewrite od_call_S, Hp.
    cbv beta iota delta [ObjectDetection.forward bind time_time ObjectDetection.fields
                         ObjectDetection.deref].
    change (heap (tick w)) with (heap w). rewrite Hp. cbv beta iota delta [ret].
    rewrite Hcall, Hsync. reflexivity.
  - unfold synchronize in Hsync. destruct (cuda_available w1); [done|].
    injection Hsync as _ <-. done.
Qed.

Lemma X7_od_forward_needs_cuda_witness :
  ObjectDetection.call 2 (VRef 1) (VInt 5) od_no_cuda
    = Err (RuntimeError "no CUDA device") (tick od_no_cuda) /\
  tick od_no_cuda = tick od_no_cuda /\ cuda_available (tick od_no_cuda) = false.
Proof.
  exact (X7_od_forward_needs_cuda 1 od_no_cuda (tick od_no_cuda) (tick od_no_cuda) 1
           {| ObjectDetection.layer := VRef 0; ObjectDetection._total_time := 0%Z;
              ObjectDetection.indent := tab |}
           (VInt 5) (VInt 6) (RuntimeError "no CUDA device") eq_refl eq_refl eq_refl).
Defined.

(** X8: with a CUDA device, when the layer returns [x],
    [object_detection]'s [forward] returns [x], records the new
    duration over the old one and prints one line with the proxy's
    indent and the class name of the layer; the log and the gradient
    mode are not touched. *)
Theorem X8_od_forward_with_cuda (fuel : nat) (w w1 : ObjectDetection.world) (p : addr)
    (t t1 : ObjectDetection.TimedLayer) (arg x : value) :
  heap w !! p = Some (Timed t) ->
  ObjectDetection.call fuel (ObjectDetection.layer t) arg (tick w) = Ok x w1 ->
  cuda_available w1 = true ->
  heap w1 !! p = Some (Timed t1) ->
  exists w',
    ObjectDetection.call (S fuel) (VRef p) arg w = Ok x w' /\
    let ms := ((clock w1 (reads w1) - clock w (reads w)) * 1000)%Z in
    let t' := {| ObjectDetection.layer := ObjectDetection.layer t1;
                 ObjectDetection._total_time := ms;
                 ObjectDetection.indent := ObjectDetection.indent t1 |} in
    heap w' = <[p := Timed t']> (heap w1) /\
    stdout w' = stdout w1 ++
                [LayerLine (ObjectDetection.indent t1)
                           (ObjectDetection.type_name (heap w') (ObjectDetection.layer t1)) ms] /\
    log w' = log w1 /\
    grad_enabled w' = grad_enabled w1 /\
    cuda_syncs w' = S (cuda_syncs w1) /\
    reads w' = S (reads w1).
Proof.
  intros Hp Hcall Hcu Hp1.
  assert (Hlt : p < length (heap w1)) by (by eapply lookup_lt_Some).
  eexists. split.
  - rewrite od_call_S, Hp.
    cbv beta iota delta [ObjectDetection.forward bind time_time ObjectDetection.fields
                         ObjectDetection.deref].
    change (heap (tick w)) with (heap w). rewrite Hp. cbv beta iota delta [ret].
    rewrite Hcall.
    cbv beta iota delta [synchronize ObjectDetection.set_total_time bind
                         ObjectDetection.fields ObjectDetection.deref get_heap put_heap
                         print ret tick printed].
    rewrite Hcu. simpl. rewrite Hp1. simpl.
    rewrite list_lookup_insert_eq by done. simpl. reflexivity.
  - simpl. repeat split.
Qed.

Lemma X8_od_forward_with_cuda_witness :
  exists w',
    ObjectDetection.call 2 (VRef 1) (VInt 5) OD.wrapped_once = Ok (VInt 6) w' /\
    let ms := ((clock (tick OD.wrapped_once) (reads (tick OD.wrapped_once))
                - clock OD.wrapped_once (reads OD.wrapped_once)) * 1000)%Z in
    let t' := {| ObjectDetection.layer := VRef 0;
                 ObjectDetection._total_time := ms;
                 ObjectDetection.indent := tab |} in
    heap w' = <[1 := Timed t']> (heap (tick OD.wrapped_once)) /\
    stdout w' = stdout (tick OD.wrapped_once) ++
                [LayerLine tab (ObjectDetection.type_name (heap w') (VRef 0)) ms] /\
    log w' = log (tick OD.wrapped_once) /\
    grad_enabled w' = grad_enabled (tick OD.wrapped_once) /\
    cuda_syncs w' = S (cuda_syncs (tick OD.wrapped_once)) /\
    reads w' = S (reads (tick OD.wrapped_once)).
Proof.
  exact (X8_od_forward_with_cuda 1 OD.wrapped_once (tick OD.wrapped_once) 1
           {| ObjectDetection.layer := VRef 0; ObjectDetection._total_time := 0%Z;
              ObjectDetection.indent := tab |}
           {| ObjectDetection.layer := VRef 0; ObjectDetection._total_time := 0%Z;
              ObjectDetection.indent := tab |}
           (VInt 5) (VInt 6) eq_refl eq_refl eq_refl eq_refl).
Defined.

(** ** [wrap_model_layers] of [object_detection] on numbered children *)

Lemma insert_sorted_In x s l :
  In x (ObjectDetection.insert_sorted s l) -> x = s \/ In x l.
Proof.
  induction l as [|y l IH]; simpl.
  - intros [->|[]]. by left.
  - destruct (String.leb s y); simpl.
    + intros [->|H]; [by left|by right].
    + intros [->|H]; [right; by left|]. destruct (IH H) as [->|H']; [by left|right; by right].
Qed.

Lemma sorted_In x l : In x (ObjectDetection.sorted l) -> In x l.
Proof.
  unfold ObjectDetection.sorted. induction l as [|y l IH]; simpl; [done|].
  intros H. apply insert_sorted_In in H as [->|H]; [by left|right; by apply IH].
Qed.

Lemma assoc_in_keys {V} (k : string) (l : list (string * V)) :
  In k (map fst l) -> exists v, assoc k l = Some v /\ In (k, v) l.
Proof.
  induction l as [|[k' v] l IH]; simpl; [done|].
  destruct (String.eqb_spec k k') as [->|Hne].
  - intros _. exists v. split; [done|by left].
  - intros [H|H]; [congruence|]. destruct (IH H) as (u & Hu & Hin).
    exists u. split; [done|by right].
Qed.

Lemma in_names_In name l : In name l -> in_names name l = true.
Proof.
  unfold in_names. intros H. apply existsb_exists. exists name.
  split; [done|apply String.eqb_refl].
Qed.

(** An attribute list without module-valued names is passed over. *)
Lemma od_wrap_attributes_skip wrap a m indent (w : ObjectDetection.world) :
  heap w !! a = Some (Plain m) ->
  registry_ok m = true ->
  forall names,
  (forall n, In n names -> In n Module_methods \/ In n (map fst (attrs m))) ->
  ObjectDetection.wrap_attributes wrap a indent names w = Ok tt w.
Proof.
  intros Ha Hreg. apply registry_ok_inv in Hreg as (_ & Hats & _).
  induction names as [|n names IH]; intros Hn; [done|].
  cbn [ObjectDetection.wrap_attributes]. unfold bind at 1. unfold ObjectDetection.getattr.
  rewrite Ha.
  assert (Hv : exists v, ObjectDetection.object_getattribute a (Plain m) n = Some v /\
                         is_ref v = false).
  { unfold ObjectDetection.object_getattribute.
    destruct (assoc n (attrs m)) as [v|] eqn:E.
    - exists v. split; [done|]. apply assoc_Some_in in E.
      rewrite Forall_forall in Hats. apply (Hats _ E).
    - destruct (Hn n (or_introl eq_refl)) as [H|H].
      + rewrite (in_names_In _ _ H). by eexists.
      + apply assoc_in_keys in H as (v & Hv & _). congruence. }
  destruct Hv as (v & Hv & Hnr). rewrite Hv.
  unfold bind at 1. unfold get_heap. unfold bind at 1.
  assert (Hi : isinstance_Module (heap w) v = false) by (by destruct v).
  rewrite Hi. cbn [ret]. apply IH. intros n' Hn'. apply Hn. by right.
Qed.

(** X9: [object_detection]'s [wrap_model_layers] finds the children
    through [dir(model)], which leaves out names that start with a
    digit.  On a module all of whose children are registered under such
    names (the children of a [torch.nn.Sequential] or [ModuleList])
    it wraps nothing: the world is unchanged. *)
Theorem X9_od_wrap_skips_numbered (fuel : nat) (w : ObjectDetection.world) (a : addr)
    (m : module) (indent : string) :
  heap w !! a = Some (Plain m) ->
  registry_ok m = true ->
  forallb ObjectDetection.starts_with_digit (map fst (_modules m)) = true ->
  ObjectDetection.wrap_model_layers (S fuel) (VRef a) indent w = Ok tt w.
Proof.
  intros Ha Hreg Hdig. cbn [ObjectDetection.wrap_model_layers].
  unfold bind, ObjectDetection.deref. rewrite Ha.
  apply od_wrap_attributes_skip with (m := m); [done|done|].
  intros n Hn. unfold ObjectDetection.dir in Hn. apply sorted_In in Hn.
  apply filter_In in Hn as [Hn Hnd].
  apply in_app_or in Hn as [Hn|Hn]; [by left|].
  apply in_app_or in Hn as [Hn|Hn]; [by right|].
  rewrite forallb_forall in Hdig. rewrite (Hdig n Hn) in Hnd. done.
Qed.

Lemma X9_od_wrap_skips_numbered_witness :
  ObjectDetection.wrap_model_layers 3 (VRef 0) tab od_sequential = Ok tt od_sequential.
Proof.
  exact (X9_od_wrap_skips_numbered 2 od_sequential 0
           (Module "Sequential"
                   (fun v => CallChild "0" v (fun x => CallChild "1" x Return))
                   [] [("0", 1); ("1", 2)]) tab eq_refl eq_refl eq_refl).
Defined.

(** ** What [wrap_model_layers] ([pytorchures]) prints and creates *)

Lemma size_pos t : 0 < size t.
Proof. destruct t. simpl. lia. Qed.

Lemma listing_ext h h' t :
  forall indent, (forall x, x ∈ addrs t -> h' !! x = h !! x) ->
  listing h' t indent = listing h t indent.
Proof.
  induction t as [a kids IH] using tree_ind'. intros indent Hagree.
  simpl. rewrite (Hagree a) by (simpl; left). f_equal.
  assert (Hk : forall x, x ∈ flat_map (fun nk => addrs (snd nk)) kids -> h' !! x = h !! x).
  { intros x Hx. apply Hagree. simpl. by right. }
  clear Hagree. induction kids as [|nk kids IHk]; simpl; [done|].
  inversion IH as [|? ? Hhd Htl]; subst. f_equal.
  - apply Hhd. intros x Hx. apply Hk. simpl. apply elem_of_app. by left.
  - apply IHk; [done|]. intros x Hx. apply Hk. simpl. apply elem_of_app. by right.
Qed.

Lemma listings_ext h h' (kids : list (string * tree)) indent :
  (forall x, x ∈ flat_map (fun nk => addrs (snd nk)) kids -> h' !! x = h !! x) ->
  flat_map (fun nk => listing h' (snd nk) indent) kids =
  flat_map (fun nk => listing h (snd nk) indent) kids.
Proof.
  induction kids as [|nk kids IHk]; simpl; intros Hagree; [done|]. f_equal.
  - apply listing_ext. intros x Hx. apply Hagree. apply elem_of_app. by left.
  - apply IHk. intros x Hx. apply Hagree. apply elem_of_app. by right.
Qed.

Lemma init_effect v indent (w w' : world) p :
  __init__ v indent w = Ok p w' ->
  length (heap w') = S (length (heap w)) /\ stdout w' = stdout w.
Proof.
  unfold __init__, bind, get_heap, assert.
  destruct (isinstance_Module (heap w) v); simpl; [|done].
  destruct (isinstance_TimedLayer (heap w) v); simpl; [done|].
  destruct v; try done. unfold bind, deref, alloc.
  destruct (heap w !! a); simpl; [|done].
  intros [= <- <-]. simpl. rewrite length_app. simpl. split; [lia|done].
Qed.

Lemma init_newest v indent (w w' : world) p :
  __init__ v indent w = Ok p w' -> p = length (heap w).
Proof.
  unfold __init__, bind, get_heap, assert.
  destruct (isinstance_Module (heap w) v); simpl; [|done].
  destruct (isinstance_TimedLayer (heap w) v); simpl; [done|].
  destruct v; try done. unfold bind, deref, alloc.
  destruct (heap w !! a); simpl; [|done].
  by intros [= <- <-].
Qed.

Lemma wrap_children_out bound a cls fwd ats indent :
  forall todo : list (string * tree),
  Forall (fun nk => forall (w : world) ind p w',
            is_tree_at (heap w) (snd nk) = true -> NoDup (addrs (snd nk)) ->
            wrap_model_layers bound (VRef (root (snd nk))) ind w = Ok p w' ->
            wrap_out w w' (snd nk) ind) todo ->
  (forall nk, nk ∈ todo -> height (snd nk) < bound) ->
  forall (pre : list (string * addr)) (memo : list addr) (w w' : world),
  heap w !! a = Some (Plain (Module cls fwd ats (pre ++ map entry todo))) ->
  NoDup (map fst pre ++ map fst todo) ->
  Forall (fun nk => in_names (fst nk) (map fst ats) = false) todo ->
  Forall (fun nk => is_tree_at (heap w) (snd nk) = true) todo ->
  NoDup (a :: flat_map (fun nk => addrs (snd nk)) todo) ->
  (forall nk, nk ∈ todo -> root (snd nk) ∉ memo) ->
  wrap_children (wrap_model_layers bound) a indent (map fst todo) memo w = Ok tt w' ->
  stdout w' = stdout w ++ flat_map (fun nk => listing (heap w) (snd nk) (indent +:+ tab)) todo /\
  length (heap w') = length (heap w) + fold_right (fun nk acc => 2 * size (snd nk) + acc) O todo.
Proof.
  induction todo as [|[name k] rest IHrest];
    intros IH Hh pre memo w w' Ha Hnames Hats Htrees Hnd Hmemo Hrun.
  - simpl in Hrun. injection Hrun as <-. simpl. rewrite app_nil_r. split; [done|lia].
  - inversion IH as [|? ? IHk IHr]; subst. clear IH.
    inversion Hats as [|? ? Hat Hatr]; subst. clear Hats.
    inversion Htrees as [|? ? Htk Htr]; subst. clear Htrees.
    simpl in Hat, Htk, IHk.
    simpl in Hnd. apply NoDup_cons in Hnd as [Ha_notin Hnd].
    apply NoDup_app in Hnd as (Hndk & Hdisj & Hndr).
    assert (Hak : a ∉ addrs k) by (intros ?; apply Ha_notin, elem_of_app; by left).
    assert (Har : a ∉ flat_map (fun nk => addrs (snd nk)) rest)
      by (intros ?; apply Ha_notin, elem_of_app; by right).
    assert (Halt : a < length (heap w)) by (by eapply lookup_lt_Some).
    assert (Hrb : forall x, x ∈ flat_map (fun nk => addrs (snd nk)) rest -> x < length (heap w)).
    { intros x Hx. apply list_elem_of_In, in_flat_map in Hx as (nk & Hin & Hx).
      apply list_elem_of_In in Hin, Hx. rewrite Forall_forall in Htr.
      by apply (is_tree_at_bound _ _ (Htr nk Hin)). }
    assert (Hname : name ∉ map fst pre).
    { simpl in Hnames. apply NoDup_app in Hnames as (_ & Hd & _).
      intros Hin. apply (Hd name Hin). left. }
    (* the recursive call *)
    destruct (wrap_spec k w (indent +:+ tab) Htk Hndk)
      as (p1 & w1 & Hwrap & Hw1 & Hfr1 & Hlen1 & Hamb1).
    specialize (Hwrap bound (Hh (name, k) ltac:(left))).
    destruct (IHk w (indent +:+ tab) p1 w1 Htk Hndk Hwrap) as [Hout1 Hsz1].
    apply wrapped_module in Hw1 as Hmod. destruct Hmod as (tl1 & Hp1 & _).
    inversion Hw1 as [rk kids mk psk ? ? ? tm Hrk0 Hrk1 Hp1obj Htm _ Hkids]; subst.
    (* one turn of the loop *)
    simpl map in Hrun.
    erewrite wrap_children_cons in Hrun;
      [| exact Ha
       | cbn [modules_of _modules]; rewrite assoc_app_r by done; simpl;
         by rewrite String.eqb_refl
       | apply (Hmemo (name, Node rk kids)); left].
    simpl root in Hwrap. rewrite Hwrap in Hrun.
    rewrite (init_ok w1 rk _ indent Hrk1) in Hrun. cbn [class_name] in Hrun.
    set (c := length (heap w1)) in *.
    set (w2 := set_heap (heap w1 ++ [Timed {| _module := rk; _module_name := class_name mk;
                                             _total_time_ms := 0%Z; _indent := indent |}]) w1)
      in *.
    assert (Ha2 : heap w2 !! a =
                  Some (Plain (Module cls fwd ats
                                      (pre ++ map entry ((name, Node rk kids) :: rest))))).
    { simpl. rewrite lookup_app_l by lia. rewrite Hfr1; done. }
    rewrite (setattr_ok w2 a _ name c Ha2) in Hrun. cbn [class_name forward_body attrs _modules] in Hrun.
    rewrite (assoc_del_notin name ats Hat) in Hrun.
    change (map entry ((name, Node rk kids) :: rest)) with ((name, rk) :: map entry rest) in Hrun.
    rewrite assoc_set_app_r in Hrun by done.
    set (w3 := set_heap (<[a := Plain (Module cls fwd ats (pre ++ (name, c) :: map entry rest))]>
                           (heap w2)) w2) in *.
    assert (Hagree : forall x, x ∈ flat_map (fun nk => addrs (snd nk)) rest ->
                               heap w3 !! x = heap w !! x).
    { intros x Hx. simpl. rewrite list_lookup_insert_ne by (intros ->; by apply Har).
      specialize (Hrb x Hx). rewrite lookup_app_l by lia.
      apply Hfr1; [done|]. intros Hxk. by apply (Hdisj x Hxk). }
    assert (Hlen3 : length (heap w3) = S (length (heap w1))).
    { simpl. rewrite length_insert, length_app. simpl. lia. }
    destruct (IHrest IHr (fun nk Hin => Hh nk ltac:(by right)) (pre ++ [(name, c)])
                (rk :: memo) w3 w') as [Hout' Hsz'].
    + simpl. rewrite list_lookup_insert_eq; [by rewrite <- app_assoc|].
      rewrite length_app. lia.
    + rewrite map_app. simpl. rewrite <- app_assoc. exact Hnames.
    + done.
    + apply Forall_forall. intros nk Hin. rewrite Forall_forall in Htr.
      rewrite <- (Htr nk Hin). apply is_tree_at_ext. intros x Hx. apply Hagree.
      apply list_elem_of_In, in_flat_map. exists nk. split; by apply list_elem_of_In.
    + by apply NoDup_cons.
    + intros nk Hin Hel. apply elem_of_cons in Hel as [Hel|Hel].
      * apply (Hdisj rk); [left|]. rewrite <- Hel.
        apply list_elem_of_In, in_flat_map. exists nk. split; [by apply list_elem_of_In|].
        destruct (snd nk). simpl. by left.
      * apply (Hmemo nk); [by right|done].
    + exact Hrun.
    + split.
      * rewrite Hout'. change (stdout w3) with (stdout w1). rewrite Hout1.
        rewrite <- app_assoc. f_equal. cbn [flat_map snd]. f_equal.
        by apply listings_ext.
      * rewrite Hsz'. change (length (heap w3)) with (length (heap w3)).
        rewrite Hlen3. fold c in Hsz1. cbn [fold_right snd].
        pose proof (size_pos (Node rk kids)). lia.
Qed.

Lemma wrap_out_spec t :
  forall fuel (w w' : world) indent p,
  is_tree_at (heap w) t = true -> NoDup (addrs t) -> height t < fuel ->
  wrap_model_layers fuel (VRef (root t)) indent w = Ok p w' ->
  wrap_out w w' t indent.
Proof.
  induction t as [a kids IH] using tree_ind'.
  intros fuel w w' indent p Ht Hnd Hf Hrun.
  destruct fuel as [|fuel]; [lia|].
  pose proof (is_tree_at_inv _ _ _ Ht) as (m & Ha & Hmods & Hreg & Hkids).
  apply registry_ok_inv in Hreg as (Hnames & _ & Hndn).
  destruct m as [cls fwd ats mods]. simpl in Hmods, Hnames, Hndn. subst mods.
  rewrite map_fst_entry in Hnames, Hndn.
  simpl root in Hrun. rewrite (wrap_S_plain _ a _ indent w Ha) in Hrun.
  cbn [_modules class_name] in Hrun. rewrite map_fst_entry in Hrun.
  destruct (wrap_children (wrap_model_layers fuel) a indent (map fst kids) []
              (printed (Text (indent +:+ cls)) w)) as [[] w1|e w1|] eqn:Hloop; try done.
  destruct (wrap_children_out fuel a cls fwd ats indent kids) with
    (pre := @nil (string * addr)) (memo := @nil addr)
    (w := printed (Text (indent +:+ cls)) w) (w' := w1) as [Hout Hsz]; try done.
  - apply Forall_forall. intros nk Hin w0 ind p0 w0' Ht0 Hnd0 Hrun0.
    rewrite Forall_forall in IH. eapply (IH nk Hin fuel); eauto.
    pose proof (height_kid a kids nk Hin). lia.
  - intros nk Hin. pose proof (height_kid a kids nk Hin). lia.
  - apply Forall_forall. intros nk Hin. rewrite Forall_forall in Hnames.
    apply Hnames. apply list_elem_of_fmap. by exists nk.
  - intros nk _ Hel. by apply elem_of_nil in Hel.
  - apply init_effect in Hrun as [Hl Hs]. split.
    + rewrite Hs, Hout. simpl. rewrite Ha. simpl. by rewrite <- app_assoc.
    + rewrite Hl, Hsz. simpl.
      clear. induction kids as [|nk kids IHk]; simpl; lia.
Qed.

Lemma wrap_newest t fuel (w w' : world) indent p :
  is_tree_at (heap w) t = true ->
  wrap_model_layers (S fuel) (VRef (root t)) indent w = Ok p w' ->
  S p = length (heap w').
Proof.
  destruct t as [a kids]. intros Ht Hrun.
  pose proof (is_tree_at_inv _ _ _ Ht) as (m & Ha & _).
  simpl root in Hrun. rewrite (wrap_S_plain _ a _ indent w Ha) in Hrun.
  destruct (wrap_children _ _ _ _ _ _) as [[] w1|e w1|]; try done.
  pose proof (init_newest _ _ _ _ _ Hrun) as ->.
  apply init_effect in Hrun as [-> _]. done.
Qed.

(** X10: [wrap_model_layers] prints the class names of the tree in
    pre-order, each level one tab deeper than its parent, and nothing
    else. *)
Theorem X10_wrap_prints_listing (w : world) (t : tree) (indent : string) :
  is_tree (heap w) t = true ->
  exists p w',
    (forall fuel, height t < fuel ->
       wrap_model_layers fuel (VRef (root t)) indent w = Ok p w') /\
    stdout w' = stdout w ++ listing (heap w) t indent.
Proof.
  intros Ht. apply is_tree_inv in Ht as [Ht Hnd].
  destruct (wrap_spec t w indent Ht Hnd) as (p & w' & Hwrap & _).
  exists p, w'. split; [done|].
  by destruct (wrap_out_spec t (S (height t)) w w' indent p Ht Hnd (Nat.lt_succ_diag_r _)
                 (Hwrap _ (Nat.lt_succ_diag_r _))).
Qed.

Lemma X10_wrap_prints_listing_witness :
  exists p w',
    (forall fuel, height demo_tree < fuel ->
       wrap_model_layers fuel (VRef (root demo_tree)) "" demo_world = Ok p w') /\
    stdout w' = stdout demo_world ++ listing (heap demo_world) demo_tree "".
Proof. apply (X10_wrap_prints_listing demo_world demo_tree ""). reflexivity. Defined.

(** X11: wrapping a tree of [n] modules constructs [2 * n - 1]
    [TimedLayer]s, two for every module below the root (the one the
    recursive call returns is dropped) and one for the root; the proxy
    returned is the last one constructed. *)
Theorem X11_wrap_allocations (w : world) (t : tree) (indent : string) :
  is_tree (heap w) t = true ->
  exists p w',
    (forall fuel, height t < fuel ->
       wrap_model_layers fuel (VRef (root t)) indent w = Ok p w') /\
    length (heap w') = length (heap w) + 2 * size t - 1 /\
    S p = length (heap w').
Proof.
  intros Ht. apply is_tree_inv in Ht as [Ht Hnd].
  destruct (wrap_spec t w indent Ht Hnd) as (p & w' & Hwrap & _).
  exists p, w'. split; [done|].
  pose proof (Hwrap _ (Nat.lt_succ_diag_r _)) as Hrun.
  split.
  - by destruct (wrap_out_spec t _ w w' indent p Ht Hnd (Nat.lt_succ_diag_r _) Hrun).
  - by apply (wrap_newest t _ w w' indent p Ht Hrun).
Qed.

Lemma X11_wrap_allocations_witness :
  exists p w',
    (forall fuel, height demo_tree < fuel ->
       wrap_model_layers fuel (VRef (root demo_tree)) "" demo_world = Ok p w') /\
    length (heap w') = length (heap demo_world) + 2 * size demo_tree - 1 /\
    S p = length (heap w').
Proof. apply (X11_wrap_allocations demo_world demo_tree ""). reflexivity. Defined.

(** ** Children that do not form a tree of plain modules *)

Lemma wrap_children_seen wrap model o indent name keys memo child (w : world) :
  heap w !! model = Some o ->
  assoc name (modules_of o) = Some child ->
  child ∈ memo ->
  wrap_children wrap model indent (name :: keys) memo w =
  wrap_children wrap model indent keys memo w.
Proof.
  intros Hm Ha Hmemo. simpl. unfold bind at 1. unfold deref. rewrite Hm. rewrite Ha.
  by rewrite bool_decide_eq_true_2.
Qed.

Lemma wrap_leaf fuel c mc indent (w : world) :
  heap w !! c = Some (Plain mc) -> _modules mc = [] ->
  wrap_model_layers (S fuel) (VRef c) indent w =
  Ok (length (heap w))
     (set_heap (heap w ++ [Timed {| _module := c; _module_name := class_name mc;
                                    _total_time_ms := 0%Z; _indent := indent |}])
               (printed (Text (indent +:+ class_name mc)) w)).
Proof.
  intros Hc Hleaf. rewrite (wrap_S_plain _ c mc indent w Hc). rewrite Hleaf. simpl map.
  cbn [wrap_children]. unfold ret.
  by rewrite (init_ok (printed (Text (indent +:+ class_name mc)) w) c mc indent Hc).
Qed.

(** X12: a module registered under two names is wrapped under the first
    only.  [named_children] yields each module once, so after
    [wrap_model_layers] the first name refers to the new proxy and the
    second name still refers to the module itself. *)
Theorem X12_shared_child_wrapped_once (w : world) (a c : addr) (cls : string)
    (fwd : value -> prog) (ats : list (string * value)) (n1 n2 : string) (mc : module)
    (indent : string) :
  heap w !! a = Some (Plain (Module cls fwd ats [(n1, c); (n2, c)])) ->
  heap w !! c = Some (Plain mc) -> _modules mc = [] ->
  n1 <> n2 ->
  exists p w',
    (forall fuel, wrap_model_layers (S (S fuel)) (VRef a) indent w = Ok p w') /\
    heap w' !! a = Some (Plain (Module cls fwd (assoc_del n1 ats)
                                       [(n1, S (length (heap w))); (n2, c)])) /\
    heap w' !! S (length (heap w)) =
      Some (Timed {| _module := c; _module_name := class_name mc;
                     _total_time_ms := 0%Z; _indent := indent |}) /\
    heap w' !! c = Some (Plain mc).
Proof.
  intros Ha Hc Hleaf Hne.
  assert (Hac : a <> c).
  { intros ->. rewrite Ha in Hc. injection Hc as <-. done. }
  pose proof (lookup_lt_Some _ _ _ Ha) as Hla.
  pose proof (lookup_lt_Some _ _ _ Hc) as Hlc.
  set (w0 := printed (Text (indent +:+ cls)) w).
  set (w1 := set_heap (heap w0 ++ [Timed {| _module := c; _module_name := class_name mc;
                                            _total_time_ms := 0%Z;
                                            _indent := indent +:+ tab |}])
                      (printed (Text ((indent +:+ tab) +:+ class_name mc)) w0)).
  set (w2 := set_heap (heap w1 ++ [Timed {| _module := c; _module_name := class_name mc;
                                            _total_time_ms := 0%Z; _indent := indent |}]) w1).
  set (w3 := set_heap (<[a := Plain (Module cls fwd (assoc_del n1 ats)
                                            [(n1, S (length (heap w))); (n2, c)])]>
                         (heap w2)) w2).
  assert (Ha2 : heap w2 !! a = Some (Plain (Module cls fwd ats [(n1, c); (n2, c)]))).
  { simpl. rewrite !lookup_app_l; [done|lia|rewrite length_app; simpl; lia]. }
  assert (Hc1 : heap w1 !! c = Some (Plain mc)).
  { simpl. by rewrite lookup_app_l. }
  assert (Hl1 : length (heap w1) = S (length (heap w))).
  { simpl. rewrite length_app. simpl. lia. }
  assert (Ha3 : heap w3 !! a = Some (Plain (Module cls fwd (assoc_del n1 ats)
                                              [(n1, S (length (heap w))); (n2, c)]))).
  { simpl. rewrite list_lookup_insert_eq; [done|]. rewrite !length_app. simpl. lia. }
  exists (length (heap w3)),
         (set_heap (heap w3 ++ [Timed {| _module := a; _module_name := cls;
                                         _total_time_ms := 0%Z; _indent := indent |}]) w3).
  split; [|split; [|split]].
  - intros fuel. rewrite (wrap_S_plain _ a _ indent w Ha). cbn [_modules class_name map fst].
    erewrite wrap_children_cons;
      [| exact Ha | simpl; by rewrite String.eqb_refl
       | intros H; by apply elem_of_nil in H].
    fold w0. rewrite (wrap_leaf fuel c mc (indent +:+ tab) w0 Hc Hleaf). fold w1.
    rewrite (init_ok w1 c mc indent Hc1). fold w2.
    rewrite (setattr_ok w2 a _ n1 (length (heap w1)) Ha2).
    cbn [class_name forward_body attrs _modules assoc_set]. rewrite String.eqb_refl.
    rewrite Hl1. fold w3.
    erewrite wrap_children_seen;
      [| exact Ha3
       | cbn [modules_of _modules assoc];
         destruct (String.eqb_spec n2 n1) as [E|_]; [by destruct Hne|];
         by rewrite String.eqb_refl
       | left].
    cbn [wrap_children]. unfold ret.
    by rewrite (init_ok w3 a _ indent Ha3).
  - simpl. rewrite lookup_app_l; [|rewrite length_insert, !length_app; simpl; lia].
    rewrite list_lookup_insert_eq; [done|]. rewrite !length_app. simpl. lia.
  - simpl. rewrite lookup_app_l; [|rewrite length_insert, !length_app; simpl; lia].
    rewrite list_lookup_insert_ne by lia.
    rewrite lookup_app_r; rewrite length_app; simpl; [|lia].
    by replace (S (length (heap w)) - (length (heap w) + 1)) with 0 by lia.
  - simpl. rewrite lookup_app_l; [|rewrite length_insert, !length_app; simpl; lia].
    rewrite list_lookup_insert_ne by done.
    rewrite !lookup_app_l; [done|lia|rewrite length_app; simpl; lia].
Qed.

Lemma X12_shared_child_wrapped_once_witness :
  exists p w',
    (forall fuel, wrap_model_layers (S (S fuel)) (VRef 0) "" shared_world = Ok p w') /\
    heap w' !! 0 = Some (Plain (Module "Tied" shared_forward (assoc_del "enc" [])
                                       [("enc", S (length (heap shared_world))); ("dec", 1)])) /\
    heap w' !! S (length (heap shared_world)) =
      Some (Timed {| _module := 1; _module_name := class_name shared_leaf;
                     _total_time_ms := 0%Z; _indent := "" |}) /\
    heap w' !! 1 = Some (Plain shared_leaf).
Proof.
  apply (X12_shared_child_wrapped_once shared_world 0 1 "Tied" shared_forward []
           "enc" "dec" shared_leaf ""); try reflexivity. discriminate.
Defined.

(** X13: a failed [wrap_model_layers] is not undone.  When the second
    child of the root is already a [TimedLayer], the call fails with an
    assertion error at that child, and the first child stays replaced
    by its new proxy. *)
Theorem X13_failed_wrap_not_undone (w : world) (a c1 c2 : addr) (cls : string)
    (fwd : value -> prog) (ats : list (string * value)) (n1 n2 : string)
    (rest : list (string * addr)) (m1 : module) (t2 : TimedLayer) (indent : string) :
  heap w !! a = Some (Plain (Module cls fwd ats ((n1, c1) :: (n2, c2) :: rest))) ->
  heap w !! c1 = Some (Plain m1) -> _modules m1 = [] ->
  heap w !! c2 = Some (Timed t2) ->
  n1 <> n2 ->
  exists w',
    (forall fuel, wrap_model_layers (S (S fuel)) (VRef a) indent w = Err AssertionError w') /\
    heap w' !! a = Some (Plain (Module cls fwd (assoc_del n1 ats)
                                       ((n1, S (length (heap w))) :: (n2, c2) :: rest))) /\
    heap w' !! S (length (heap w)) =
      Some (Timed {| _module := c1; _module_name := class_name m1;
                     _total_time_ms := 0%Z; _indent := indent |}).
Proof.
  intros Ha Hc1 Hleaf Hc2 Hne.
  assert (Hac : a <> c1).
  { intros ->. rewrite Ha in Hc1. injection Hc1 as <-. done. }
  assert (Hcc : c2 <> c1).
  { intros ->. rewrite Hc1 in Hc2. done. }
  pose proof (lookup_lt_Some _ _ _ Ha) as Hla.
  pose proof (lookup_lt_Some _ _ _ Hc1) as Hlc1.
  pose proof (lookup_lt_Some _ _ _ Hc2) as Hlc2.
  set (w0 := printed (Text (indent +:+ cls)) w).
  set (w1 := set_heap (heap w0 ++ [Timed {| _module := c1; _module_name := class_name m1;
                                            _total_time_ms := 0%Z;
                                            _indent := indent +:+ tab |}])
                      (printed (Text ((indent +:+ tab) +:+ class_name m1)) w0)).
  set (w2 := set_heap (heap w1 ++ [Timed {| _module := c1; _module_name := class_name m1;
                                            _total_time_ms := 0%Z; _indent := indent |}]) w1).
  set (w3 := set_heap (<[a := Plain (Module cls fwd (assoc_del n1 ats)
                                            ((n1, S (length (heap w))) :: (n2, c2) :: rest))]>
                         (heap w2)) w2).
  assert (Ha2 : heap w2 !! a =
                Some (Plain (Module cls fwd ats ((n1, c1) :: (n2, c2) :: rest)))).
  { simpl. rewrite !lookup_app_l; [done|lia|rewrite length_app; simpl; lia]. }
  assert (Hc11 : heap w1 !! c1 = Some (Plain m1)).
  { simpl. by rewrite lookup_app_l. }
  assert (Hl1 : length (heap w1) = S (length (heap w))).
  { simpl. rewrite length_app. simpl. lia. }
  assert (Ha3 : heap w3 !! a =
                Some (Plain (Module cls fwd (assoc_del n1 ats)
                                    ((n1, S (length (heap w))) :: (n2, c2) :: rest)))).
  { simpl. rewrite list_lookup_insert_eq; [done|]. rewrite !length_app. simpl. lia. }
  assert (Hc23 : heap w3 !! c2 = Some (Timed t2)).
  { simpl. rewrite list_lookup_insert_ne by (intros ->; rewrite Ha in Hc2; done).
    rewrite !lookup_app_l; [done|lia|rewrite length_app; simpl; lia]. }
  exists w3. split; [|split].
  - intros fuel. rewrite (wrap_S_plain _ a _ indent w Ha). cbn [_modules class_name map fst].
    erewrite wrap_children_cons;
      [| exact Ha | simpl; by rewrite String.eqb_refl
       | intros H; by apply elem_of_nil in H].
    fold w0. rewrite (wrap_leaf fuel c1 m1 (indent +:+ tab) w0 Hc1 Hleaf). fold w1.
    rewrite (init_ok w1 c1 m1 indent Hc11). fold w2.
    rewrite (setattr_ok w2 a _ n1 (length (heap w1)) Ha2).
    cbn [class_name forward_body attrs _modules assoc_set]. rewrite String.eqb_refl.
    rewrite Hl1. fold w3.
    erewrite wrap_children_cons;
      [| exact Ha3
       | cbn [modules_of _modules assoc];
         destruct (String.eqb_spec n2 n1) as [E|_]; [by destruct Hne|];
         by rewrite String.eqb_refl
       | intros H; apply elem_of_cons in H as [H|H]; [done|by apply elem_of_nil in H]].
    by rewrite (wrap_S_timed fuel c2 t2 (indent +:+ tab) w3 Hc23).
  - exact Ha3.
  - simpl. rewrite list_lookup_insert_ne by lia.
    rewrite lookup_app_r; rewrite length_app; simpl; [|lia].
    by replace (S (length (heap w)) - (length (heap w) + 1)) with 0 by lia.
Qed.

Lemma X13_failed_wrap_not_undone_witness :
  exists w',
    (forall fuel, wrap_model_layers (S (S fuel)) (VRef 0) "" mixed_world =
                  Err AssertionError w') /\
    heap w' !! 0 = Some (Plain (Module "Net" shared_forward (assoc_del "enc" [])
                                       (("enc", S (length (heap mixed_world)))
                                        :: ("dec", 2) :: []))) /\
    heap w' !! S (length (heap mixed_world)) =
      Some (Timed {| _module := 1; _module_name := class_name shared_leaf;
                     _total_time_ms := 0%Z; _indent := "" |}).
Proof.
  apply (X13_failed_wrap_not_undone mixed_world 0 1 2 "Net" shared_forward []
           "enc" "dec" [] shared_leaf
           {| _module := 3; _module_name := "Linear"; _total_time_ms := 0%Z;
              _indent := "" |} "");
    try reflexivity. discriminate.
Defined.
